(** * camera-uploader: the CameraUploadComponent, embedded and verified

    A shallow embedding of [src/components/common/camera-uploader.tsx]:
    the intake validator ([isValidFileType], [handleFiles], [removeFile],
    [formatFileSize], [handleUpload]) and the camera session
    ([startCamera], [stopCamera], [capturePhoto]).

    React state ([files], [showCamera], [stream], [isUploading]) is an explicit
    record; what the component does to the outside (console, [alert], the
    [onFilesChange] observer, [URL.revokeObjectURL], stopping tracks) is an
    append-only log of effects.  Asynchronous continuations ([getUserMedia],
    [setTimeout], [canvas.toBlob]) are events the browser delivers later,
    together with the values their closure captured. *)

From Stdlib Require Import ZArith List String Ascii Bool Lia.
From Stdlib Require Import Numbers.DecimalString.
Import ListNotations.

Local Open Scope string_scope.
Local Open Scope list_scope.
Local Open Scope Z_scope.

(** ** JavaScript primitives the component relies on *)

Module Js.

(** [String(n)] for an integer [n]. *)
Definition string_of_Z (n : Z) : string :=
  NilZero.string_of_int (Z.to_int n).

(** [s.endsWith(suffix)]. *)
Definition endsWith (s suffix : string) : bool :=
  let n := String.length s in
  let m := String.length suffix in
  (m <=? n)%nat && String.eqb (substring (n - m) m s) suffix.

(** [s.startsWith(p)]. *)
Definition startsWith (s p : string) : bool := String.prefix p s.

(** [s.slice(0, e)]: a negative [e] counts from the end of [s]. *)
Definition string_slice0 (s : string) (e : Z) : string :=
  let len := Z.of_nat (String.length s) in
  let fin := if e <? 0 then Z.max (len + e) 0 else Z.min e len in
  substring 0 (Z.to_nat fin) s.

(** [l.slice(0, e)] on arrays, same convention. *)
Definition slice0 {A : Type} (l : list A) (e : Z) : list A :=
  let len := Z.of_nat (List.length l) in
  let fin := if e <? 0 then Z.max (len + e) 0 else Z.min e len in
  firstn (Z.to_nat fin) l.

(** [s.replace(/[:.]/g, '-')]. *)
Fixpoint replace_colon_dot (s : string) : string :=
  match s with
  | EmptyString => EmptyString
  | String c r =>
      String (if Ascii.eqb c ":" || Ascii.eqb c "." then "-"%char else c)
             (replace_colon_dot r)
  end.

(** [parseFloat(x.toFixed(2))] followed by the conversion of the result to a
    string, for the non-negative rational [x = num / den] ([den > 0]).
    [toFixed(2)] picks the integer [n] with [n / 100] closest to [x], the
    larger one on a tie; [parseFloat] then drops the trailing zeros, so the
    number prints with at most two decimals. *)
Definition toFixed2_hundredths (num den : Z) : Z :=
  (200 * num + den) / (2 * den).

Definition string_of_hundredths (n : Z) : string :=
  let int_part := n / 100 in
  let frac := n mod 100 in
  if frac =? 0 then string_of_Z int_part
  else if frac mod 10 =? 0 then
    string_of_Z int_part ++ "." ++ string_of_Z (frac / 10)
  else if frac <? 10 then
    string_of_Z int_part ++ ".0" ++ string_of_Z frac
  else
    string_of_Z int_part ++ "." ++ string_of_Z frac.

(** [Math.floor(Math.log(b) / Math.log(1024))] for an integer [b >= 1]:
    the exact value, [floor (log2 b / 10)].  The quotient of the two doubles
    has this floor as long as [b] is far enough from the next power of 1024
    for [Math.log] to tell them apart, which holds for every [b < 1024^4];
    from [2^50 - 3] on, just below a power of 1024, the doubles round up to
    the next integer.  The general statements about [formatFileSize] below
    are therefore made for [b < 1024^4]. *)
Definition floor_log1024 (b : Z) : Z := Z.log2 b / 10.

End Js.

(** ** Data model *)

(** The browser's [File]: name, byte size and MIME type. *)
Module File.
Record t := mk { name : string; size : Z; type : string }.
End File.

(** [interface FileObject]. *)
Record FileObject := mkFileObject {
  file : File.t;
  id : string;
  preview : string;
  name : string;
  size : Z;
  type : string
}.

(** A [MediaStream] is known by its identity only. *)
Definition MediaStream := nat.

(** What [onUpload(files)] does when awaited. *)
Inductive UploadOutcome :=
| Fulfilled
| Threw (error : string).

(** [CameraUploadComponentProps], defaults applied.  [onFilesChange] is an
    observer: the model records whether it was supplied and logs its calls. *)
Record Props := mkProps {
  onFilesChange : bool;
  onUpload : option (list FileObject -> UploadOutcome);
  maxFileSize : Z;
  acceptedTypes : list string;
  maxFiles : Z
}.

Definition defaultProps : Props :=
  {| onFilesChange := false;
     onUpload := None;
     maxFileSize := 10 * 1024 * 1024;
     acceptedTypes := ["image/*"; "video/*"];
     maxFiles := 10 |}.

(** ** formatFileSize *)

Definition sizes : list string := ["Bytes"; "KB"; "MB"; "GB"].

(** [sizes[i]] in a string concatenation: an index outside the array reads
    [undefined], which prints as "undefined". *)
Definition sizes_at (i : Z) : string :=
  if i <? 0 then "undefined"
  else match nth_error sizes (Z.to_nat i) with
       | Some u => u
       | None => "undefined"
       end.

Definition formatFileSize (bytes : Z) : string :=
  if bytes =? 0 then "0 Bytes"
  else if bytes <? 0 then "NaN undefined"
  else
    let k := 1024 in
    let i := Js.floor_log1024 bytes in
    Js.string_of_hundredths (Js.toFixed2_hundredths bytes (k ^ i))
      ++ " " ++ sizes_at i.

(** ** Effects, browser and component state *)

(** What the component does to the outside world, in order. *)
Inductive Effect :=
| ConsoleWarn (msg : string)
| ConsoleError (msg : string)
| ConsoleLog (msg : string)
| Alert (msg : string)
| OnFilesChange (updatedFiles : list FileObject)
| OnUpload (uploaded : list FileObject)
| RevokeObjectURL (url : string)
| StopTracks (s : MediaStream).

(** The host: the values the component only reads.
    [Math_random_id n] is the result of the [n]-th evaluation of
    [Math.random().toString(36).substr(2, 9)], [createObjectURL n] the URL
    returned by the [n]-th [URL.createObjectURL], [mediaDevices] whether
    [navigator.mediaDevices.getUserMedia] exists. *)
Record Browser := mkBrowser {
  Math_random_id : nat -> string;
  createObjectURL : nat -> string;
  mediaDevices : bool
}.

(** The constraints of a [getUserMedia] request in flight. *)
Inductive Constraints :=
| Preferred   (* facingMode environment, 1280x720 ideal, 1920x1080 max *)
| Fallback.   (* { video: true, audio: false } *)

(** The value a [getUserMedia] promise rejects with. *)
Inductive Rejection :=
| ErrorNamed (name message : string)   (* error instanceof Error *)
| NotAnError.

(** What the callback of [canvas.toBlob] closes over: the [handleFiles] and
    [stopCamera] of the render in which the capture button was clicked, that
    is, the [files.length] and the [stream] of that render. *)
Record BlobJob := mkBlobJob {
  job_files_length : nat;
  job_stream : option MediaStream
}.

Record State := mkState {
  (* React state *)
  files : list FileObject;
  showCamera : bool;
  stream : option MediaStream;
  isUploading : bool;
  (* DOM: the <video> of the modal exists only while showCamera holds *)
  srcObject : option MediaStream;
  (* work in flight *)
  requests : list Constraints;      (* getUserMedia promises not yet settled *)
  timers : list MediaStream;        (* setTimeout callbacks that bind a stream *)
  blobJobs : list BlobJob;          (* toBlob callbacks not yet run *)
  (* host counters and the log of effects *)
  randoms : nat;
  urls : nat;
  log : list Effect
}.

Definition initialState : State :=
  {| files := []; showCamera := false; stream := None; isUploading := false;
     srcObject := None; requests := []; timers := []; blobJobs := [];
     randoms := 0; urls := 0; log := [] |}.

(** Field updates. *)
Definition emit (es : list Effect) (st : State) : State :=
  mkState (files st) (showCamera st) (stream st) (isUploading st)
          (srcObject st) (requests st) (timers st) (blobJobs st)
          (randoms st) (urls st) (log st ++ es).

Definition setStream (s : option MediaStream) (st : State) : State :=
  mkState (files st) (showCamera st) s (isUploading st)
          (srcObject st) (requests st) (timers st) (blobJobs st)
          (randoms st) (urls st) (log st).

(** [setShowCamera(b)]: the modal, and with it the <video> element, is
    mounted while [showCamera] holds; a freshly mounted or an unmounted
    element has no [srcObject]. *)
Definition setShowCamera (b : bool) (st : State) : State :=
  mkState (files st) b (stream st) (isUploading st)
          (if b && showCamera st then srcObject st else None)
          (requests st) (timers st) (blobJobs st)
          (randoms st) (urls st) (log st).

Definition setIsUploading (b : bool) (st : State) : State :=
  mkState (files st) (showCamera st) (stream st) b
          (srcObject st) (requests st) (timers st) (blobJobs st)
          (randoms st) (urls st) (log st).

Definition setSrcObject (s : option MediaStream) (st : State) : State :=
  mkState (files st) (showCamera st) (stream st) (isUploading st)
          s (requests st) (timers st) (blobJobs st)
          (randoms st) (urls st) (log st).

Definition setRequests (rs : list Constraints) (st : State) : State :=
  mkState (files st) (showCamera st) (stream st) (isUploading st)
          (srcObject st) rs (timers st) (blobJobs st)
          (randoms st) (urls st) (log st).

Definition setTimers (ts : list MediaStream) (st : State) : State :=
  mkState (files st) (showCamera st) (stream st) (isUploading st)
          (srcObject st) (requests st) ts (blobJobs st)
          (randoms st) (urls st) (log st).

Definition setBlobJobs (js : list BlobJob) (st : State) : State :=
  mkState (files st) (showCamera st) (stream st) (isUploading st)
          (srcObject st) (requests st) (timers st) js
          (randoms st) (urls st) (log st).

(** The ref [videoRef.current] is non-null exactly while the modal is shown;
    [canvasRef.current] always is (the canvas is rendered unconditionally). *)
Definition videoRef_current (st : State) : bool := showCamera st.
Definition canvasRef_current (st : State) : bool := true.

(** ** The component *)

Section Component.

Variable B : Browser.
Variable P : Props.

(** *** Intake validator *)

Definition isValidFileType (f : File.t) : bool :=
  existsb
    (fun type =>
       if Js.endsWith type "/*"
       then Js.startsWith (File.type f) (Js.string_slice0 type (-1))
       else String.eqb (File.type f) type)
    (acceptedTypes P).

Definition unsupported_type_msg (f : File.t) : string :=
  "File " ++ File.name f ++ " is not a supported type".

Definition too_large_msg (f : File.t) : string :=
  "File " ++ File.name f ++ " is too large ("
    ++ formatFileSize (File.size f) ++ ")".

Definition limit_msg (added : nat) : string :=
  "Only adding " ++ Js.string_of_Z (Z.of_nat added)
    ++ " files due to maximum limit of " ++ Js.string_of_Z (maxFiles P).

(** The callback given to [fileArray.filter]: its verdict and the warning
    it prints on the way. *)
Definition validate (f : File.t) : bool * list Effect :=
  if negb (isValidFileType f) then
    (false, [ConsoleWarn (unsupported_type_msg f)])
  else if File.size f >? maxFileSize P then
    (false, [ConsoleWarn (too_large_msg f)])
  else (true, []).

Definition validFiles (fileArray : list File.t) : list File.t :=
  filter (fun f => fst (validate f)) fileArray.

Definition validation_warnings (fileArray : list File.t) : list Effect :=
  flat_map (fun f => snd (validate f)) fileArray.

(** [filesToAdd.map(file => ({ file, id: ..., preview: ..., ... }))]; [r]
    and [u] count the calls of [Math.random] and [URL.createObjectURL]
    made so far. *)
Fixpoint fileObjects (r u : nat) (filesToAdd : list File.t)
  : list FileObject :=
  match filesToAdd with
  | [] => []
  | f :: rest =>
      {| file := f;
         id := Math_random_id B r;
         preview := createObjectURL B u;
         name := File.name f;
         size := File.size f;
         type := File.type f |} :: fileObjects (S r) (S u) rest
  end.

Definition notify (updatedFiles : list FileObject) : list Effect :=
  if onFilesChange P then [OnFilesChange updatedFiles] else [].

(** [handleFiles(newFiles)].  [files_length] is the [files.length] the
    callback closed over when it was created; the updater given to
    [setFiles] reads the pending set of the moment, [files st]. *)
Definition handleFiles (files_length : nat) (newFiles : list File.t)
           (st : State) : State :=
  let fileArray := newFiles in
  let valid := validFiles fileArray in
  let remainingSlots := maxFiles P - Z.of_nat files_length in
  let filesToAdd := Js.slice0 valid remainingSlots in
  let limit :=
    if (List.length filesToAdd <? List.length valid)%nat
    then [ConsoleWarn (limit_msg (List.length filesToAdd))] else [] in
  let created := fileObjects (randoms st) (urls st) filesToAdd in
  let updatedFiles := files st ++ created in
  mkState updatedFiles (showCamera st) (stream st) (isUploading st)
          (srcObject st) (requests st) (timers st) (blobJobs st)
          (randoms st + List.length filesToAdd)%nat
          (urls st + List.length filesToAdd)%nat
          (log st ++ validation_warnings fileArray ++ limit
                  ++ notify updatedFiles).

(** [handleFiles] in two moments.  [handleFiles_call] is what runs inside
    the call: the filter with its warnings, the limit warning and the
    creation of the entries; it ends by queueing the updater given to
    [setFiles].  [setFiles_updater] is that updater, which React runs when it
    next renders: it appends the entries to the pending set of that moment
    and calls [onFilesChange].  When nothing else happens in between, the two
    together are [handleFiles]. *)
Definition handleFiles_call (files_length : nat) (newFiles : list File.t)
           (st : State) : State * list FileObject :=
  let fileArray := newFiles in
  let valid := validFiles fileArray in
  let remainingSlots := maxFiles P - Z.of_nat files_length in
  let filesToAdd := Js.slice0 valid remainingSlots in
  let limit :=
    if (List.length filesToAdd <? List.length valid)%nat
    then [ConsoleWarn (limit_msg (List.length filesToAdd))] else [] in
  let created := fileObjects (randoms st) (urls st) filesToAdd in
  (mkState (files st) (showCamera st) (stream st) (isUploading st)
           (srcObject st) (requests st) (timers st) (blobJobs st)
           (randoms st + List.length filesToAdd)%nat
           (urls st + List.length filesToAdd)%nat
           (log st ++ validation_warnings fileArray ++ limit),
   created).

Definition setFiles_updater (created : list FileObject) (st : State)
  : State :=
  let updatedFiles := files st ++ created in
  mkState updatedFiles (showCamera st) (stream st) (isUploading st)
          (srcObject st) (requests st) (timers st) (blobJobs st)
          (randoms st) (urls st)
          (log st ++ notify updatedFiles).

(** [accept]: [handleFiles] as the DOM handlers ([handleDrop],
    [handleFileInput]) reach it.  [files.length] is in the dependency list
    of the callback, so the handler of the current render has closed over
    the current length of the pending set. *)
Definition accept (newFiles : list File.t) (st : State) : State :=
  handleFiles (List.length (files st)) newFiles st.

(** [handleDrop] and [handleFileInput] call [handleFiles] only for a
    non-empty list. *)
Definition handleDrop (droppedFiles : list File.t) (st : State) : State :=
  match droppedFiles with
  | [] => st
  | _ => accept droppedFiles st
  end.

(** [removeFile(id)]. *)
Definition removeFile (rid : string) (st : State) : State :=
  let prev := files st in
  let fileToRemove := find (fun f => String.eqb (id f) rid) prev in
  let revoked :=
    match fileToRemove with
    | Some f => [RevokeObjectURL (preview f)]
    | None => []
    end in
  let updatedFiles := filter (fun f => negb (String.eqb (id f) rid)) prev in
  mkState updatedFiles (showCamera st) (stream st) (isUploading st)
          (srcObject st) (requests st) (timers st) (blobJobs st)
          (randoms st) (urls st)
          (log st ++ revoked ++ notify updatedFiles).

(** [handleUpload()], with [await onUpload(files)] run to its outcome. *)
Definition upload_failed_msg : string := "Upload failed. Please try again.".

Definition handleUpload (st : State) : State :=
  if (List.length (files st) =? 0)%nat then st
  else
    let st1 := setIsUploading true st in
    let st2 :=
      match onUpload P with
      | Some upload =>
          match upload (files st) with
          | Fulfilled => emit [OnUpload (files st)] st1
          | Threw e =>
              emit [OnUpload (files st);
                    ConsoleError ("Upload error: " ++ e);
                    Alert upload_failed_msg] st1
          end
      | None =>
          emit [ConsoleLog "Files to upload:";
                Alert ("Ready to upload "
                         ++ Js.string_of_Z (Z.of_nat (List.length (files st)))
                         ++ " file(s)")] st1
      end in
    setIsUploading false st2.

(** *** Camera session *)

Definition unsupported_browser_msg : string :=
  "Camera access is not supported in this browser.".
Definition not_ready_msg : string :=
  "Camera not ready yet. Please wait a moment and try again.".
Definition no_canvas_msg : string :=
  "Unable to capture photo. Canvas not supported.".

(** [startCamera()] up to its first [await]. *)
Definition startCamera (st : State) : State :=
  if negb (mediaDevices B) then emit [Alert unsupported_browser_msg] st
  else
    let st1 := setShowCamera true st in
    setRequests (requests st1 ++ [Preferred]) st1.

(** [setTimeout(() => { if (videoRef.current) ... }, 100)]. *)
Definition scheduleBind (s : MediaStream) (st : State) : State :=
  setTimers (timers st ++ [s]) st.

(** The continuation of [startCamera] when the oldest [getUserMedia]
    promise resolves with the stream [s]. *)
Definition getUserMedia_resolved (s : MediaStream) (st : State) : State :=
  match requests st with
  | [] => st
  | Preferred :: rs =>
      scheduleBind s (setStream (Some s) (setRequests rs st))
  | Fallback :: rs =>
      scheduleBind s
        (setShowCamera true (setStream (Some s) (setRequests rs st)))
  end.

(** The [catch] blocks of [startCamera]. *)
Definition getUserMedia_rejected (e : Rejection) (st : State) : State :=
  match requests st with
  | [] => st
  | Preferred :: rs =>
      let st1 :=
        setShowCamera false
          (emit [ConsoleError "Error accessing camera:"]
                (setRequests rs st)) in
      match e with
      | ErrorNamed name message =>
          if String.eqb name "NotAllowedError" then
            emit [Alert "Camera access denied. Please allow camera permissions and try again."] st1
          else if String.eqb name "NotFoundError" then
            emit [Alert "No camera found on this device."] st1
          else if String.eqb name "NotSupportedError" then
            emit [Alert "Camera is not supported on this device."] st1
          else if String.eqb name "OverconstrainedError" then
            setRequests (requests st1 ++ [Fallback]) st1
          else
            emit [Alert ("Camera error: " ++ message)] st1
      | NotAnError =>
          emit [Alert "Unable to access camera. Please check permissions."] st1
      end
  | Fallback :: rs =>
      emit [Alert "Unable to access camera with any settings."]
           (setRequests rs st)
  end.

(** The oldest pending timer runs: the stream is bound to the <video>
    element if there is one. *)
Definition timer_fired (st : State) : State :=
  match timers st with
  | [] => st
  | s :: ts =>
      let st1 := setTimers ts st in
      if videoRef_current st1 then setSrcObject (Some s) st1 else st1
  end.

(** [stopCamera()].  [captured] is the [stream] the callback closed over
    ([stream] is its only dependency). *)
Definition stopCamera (captured : option MediaStream) (st : State) : State :=
  let st1 :=
    match captured with
    | Some s => setStream None (emit [StopTracks s] st)
    | None => st
    end in
  setShowCamera false st1.

(** [capturePhoto()] up to the call of [canvas.toBlob].  [context] tells
    whether [canvas.getContext('2d')] returned a context; [videoWidth] and
    [videoHeight] are what the <video> element reports at that moment. *)
Definition capturePhoto (context : bool) (videoWidth videoHeight : Z)
           (st : State) : State :=
  if videoRef_current st && canvasRef_current st then
    if negb context then
      emit [ConsoleError "Unable to get canvas context"; Alert no_canvas_msg]
           st
    else if (videoWidth =? 0) || (videoHeight =? 0) then
      emit [Alert not_ready_msg] st
    else
      setBlobJobs
        (blobJobs st ++ [mkBlobJob (List.length (files st)) (stream st)]) st
  else st.

(** The callback of [canvas.toBlob]: [blob] is the byte size of the JPEG, or
    [None] for a null blob; [iso] is [new Date().toISOString()].  The
    callback calls [handleFiles([file])] and then [stopCamera()]; the updater
    queued by [handleFiles] runs at the render that follows, after the
    tracks were stopped. *)
Definition toBlob_callback (blob : option Z) (iso : string) (st : State)
  : State :=
  match blobJobs st with
  | [] => st
  | j :: js =>
      let st1 := setBlobJobs js st in
      match blob with
      | Some bytes =>
          let timestamp := Js.replace_colon_dot iso in
          let f := File.mk ("camera-capture-" ++ timestamp ++ ".jpg")
                           bytes "image/jpeg" in
          let (st2, created) :=
            handleFiles_call (job_files_length j) [f] st1 in
          setFiles_updater created (stopCamera (job_stream j) st2)
      | None => emit [Alert "Failed to capture photo. Please try again."] st1
      end
  end.

(** *** The event loop *)

Inductive Event :=
| Drop (droppedFiles : list File.t)
| ClickRemove (rid : string)
| ClickUpload
| ClickTakePhoto
| MediaResolved (s : MediaStream)
| MediaRejected (e : Rejection)
| TimerFired
| ClickCancel
| ClickCapture (context : bool) (videoWidth videoHeight : Z)
| BlobReady (blob : option Z) (iso : string).

(** One turn of the event loop; the handlers are those of the current
    render. *)
Definition step (st : State) (e : Event) : State :=
  match e with
  | Drop fs => handleDrop fs st
  | ClickRemove rid => removeFile rid st
  | ClickUpload => handleUpload st
  | ClickTakePhoto => startCamera st
  | MediaResolved s => getUserMedia_resolved s st
  | MediaRejected r => getUserMedia_rejected r st
  | TimerFired => timer_fired st
  | ClickCancel => stopCamera (stream st) st
  | ClickCapture c w h => capturePhoto c w h st
  | BlobReady b iso => toBlob_callback b iso st
  end.

Definition run (st : State) (trace : list Event) : State :=
  fold_left step trace st.

(** A sequence of [accept] calls. *)
Definition accept_all (st : State) (batches : list (list File.t)) : State :=
  fold_left (fun s batch => accept batch s) batches st.

(** The session states of the camera that the claims speak of. *)
Definition Live (st : State) : Prop :=
  showCamera st = true /\ exists s, stream st = Some s.

Definition acquiring (st : State) : Prop :=
  showCamera st = true /\ stream st = None /\ requests st <> [].

End Component.

(** The effects a handler added to the log. *)
Definition emitted (st st' : State) : list Effect :=
  skipn (List.length (log st)) (log st').

(** The entries [handleFiles] appends to the pending set. *)
Definition created (B : Browser) (P : Props) (n : nat) (batch : list File.t)
           (st : State) : list FileObject :=
  fileObjects B (randoms st) (urls st)
              (Js.slice0 (validFiles P batch) (maxFiles P - Z.of_nat n)).

(** ** The accepted-type rule in the words of the specification

    A pattern matches a MIME type by exact equality or, when the pattern ends
    in "/*", when the type starts with the pattern up to (not including) the
    star. *)
Definition pattern_matches (pattern ftype : string) : bool :=
  String.eqb ftype pattern
  || (Js.endsWith pattern "/*"
      && String.prefix (substring 0 (String.length pattern - 1) pattern) ftype).

Definition matches_no_pattern (P : Props) (f : File.t) : Prop :=
  forall pattern,
    In pattern (acceptedTypes P) -> pattern_matches pattern (File.type f) = false.

(** ** Claims that do not hold as they are worded *)

(** A batch of oversized files: pending set unchanged, a size rejection
    emitted, the observer not invoked. *)
Definition oversized_batch_is_silent (B : Browser) (P : Props) (st : State)
           (batch : list File.t) : Prop :=
  Forall (fun f => File.size f > maxFileSize P) batch ->
  let st' := accept B P batch st in
  files st' = files st
  /\ (exists f, In f batch /\ In (ConsoleWarn (too_large_msg f)) (emitted st st'))
  /\ (forall l, ~ In (OnFilesChange l) (emitted st st')).

(** [remove] twice is [remove] once, and [remove] of an absent identifier does
    nothing at all. *)
Definition remove_is_idempotent_noop (P : Props) (st : State) (rid : string)
  : Prop :=
  removeFile P rid (removeFile P rid st) = removeFile P rid st
  /\ (~ In rid (map id (files st)) -> removeFile P rid st = st).

(** A capture on zero frame dimensions: nothing produced, the not-ready
    error reported, the session still live. *)
Definition zero_frame_capture_reports_not_ready (st : State) (context : bool)
           (videoWidth videoHeight : Z) : Prop :=
  Live st -> videoWidth = 0 \/ videoHeight = 0 ->
  let st' := capturePhoto context videoWidth videoHeight st in
  files st' = files st
  /\ blobJobs st' = blobJobs st
  /\ In (Alert not_ready_msg) (emitted st st')
  /\ Live st' /\ stream st' = stream st.

(** ** Concrete hosts, configurations and files *)

Definition MiB : Z := 1024 * 1024.

(** A host whose random identifiers and object URLs are all different. *)
Definition host : Browser :=
  {| Math_random_id := fun n => ("r" ++ Js.string_of_Z (Z.of_nat n))%string;
     createObjectURL := fun n => ("blob:" ++ Js.string_of_Z (Z.of_nat n))%string;
     mediaDevices := true |}.

(** A host on which [Math.random()] returns 0.5 twice in a row:
    [(0.5).toString(36)] is "0.i", so both identifiers are "i". *)
Definition repeating_host : Browser :=
  {| Math_random_id := fun _ => "i";
     createObjectURL := fun n => ("blob:" ++ Js.string_of_Z (Z.of_nat n))%string;
     mediaDevices := true |}.

(** The configuration of [src/app/page.tsx], with an [onUpload] that fails. *)
Definition pageProps : Props :=
  {| onFilesChange := true;
     onUpload := Some (fun _ => Threw "network down");
     maxFileSize := 5 * MiB;
     acceptedTypes := ["image/*"];
     maxFiles := 5 |}.

Definition twoSlots : Props :=
  {| onFilesChange := true;
     onUpload := None;
     maxFileSize := 5 * MiB;
     acceptedTypes := ["image/*"; "application/pdf"];
     maxFiles := 2 |}.

Definition photoA : File.t := File.mk "a.jpg" 2048 "image/jpeg".
Definition photoB : File.t := File.mk "b.png" 4096 "image/png".
Definition photoC : File.t := File.mk "c.jpg" 1024 "image/jpeg".
Definition hugePhoto : File.t := File.mk "huge.jpg" (6 * MiB) "image/jpeg".
Definition hugeArchive : File.t := File.mk "huge.zip" (6 * MiB) "application/zip".
Definition exactPhoto : File.t := File.mk "exact.jpg" (5 * MiB) "image/jpeg".
Definition notes : File.t := File.mk "notes.txt" 10 "text/plain".

(** A live session: modal shown, stream 7 acquired and bound. *)
Definition liveState : State :=
  {| files := []; showCamera := true; stream := Some 7%nat;
     isUploading := false; srcObject := Some 7%nat;
     requests := []; timers := []; blobJobs := [];
     randoms := 0; urls := 0; log := [] |}.

(** The cancel that overtakes the acquisition. *)
Definition cancel_in_flight (s : MediaStream) : list Event :=
  [ClickTakePhoto; ClickCancel; MediaResolved s; TimerFired].

(** ** Vocabulary for the rest of the component *)

(** No camera session: modal closed, no stream, nothing in flight. *)
Definition Idle (st : State) : Prop :=
  showCamera st = false /\ stream st = None
  /\ requests st = [] /\ timers st = [].

(** The rejection that makes [startCamera] retry with relaxed constraints. *)
Definition overconstrained (e : Rejection) : bool :=
  match e with
  | ErrorNamed name _ => String.eqb name "OverconstrainedError"
  | NotAnError => false
  end.

(** An entry that went through the validation of [handleFiles]: metadata
    copied from its file, type accepted, size within the limit. *)
Definition entry_ok (P : Props) (e : FileObject) : Prop :=
  name e = File.name (file e)
  /\ size e = File.size (file e)
  /\ type e = File.type (file e)
  /\ isValidFileType P (file e) = true
  /\ File.size (file e) <= maxFileSize P.

(** Events other than the arrival of a [toBlob] result. *)
Definition no_blob (e : Event) : bool :=
  match e with
  | BlobReady _ _ => false
  | _ => true
  end.

(** The file [capturePhoto] builds from a blob of [bytes] bytes at time
    [iso]. *)
Definition capture_file (bytes : Z) (iso : string) : File.t :=
  File.mk ("camera-capture-" ++ Js.replace_colon_dot iso ++ ".jpg")
          bytes "image/jpeg".

(** The values [proj] of the entries of [l] are outputs of the generator
    [gen] at pairwise different call numbers, all below [bound]. *)
Definition tagged (proj : FileObject -> string) (gen : nat -> string)
           (bound : nat) (l : list FileObject) : Prop :=
  exists ks,
    Forall2 (fun k e => proj e = gen k) ks l
    /\ NoDup ks
    /\ Forall (fun k => (k < bound)%nat) ks.

(** * Proofs *)

(** ** Arrays and strings *)

Section SliceFacts.

Context {A : Type}.
Implicit Types (l : list A) (e : Z).

Lemma slice0_nonneg l e :
  0 <= e -> Js.slice0 l e = firstn (Z.to_nat e) l.
Proof.
  intros He. unfold Js.slice0.
  destruct (e <? 0) eqn:Hneg; [apply Z.ltb_lt in Hneg; lia|].
  destruct (Z.le_gt_cases e (Z.of_nat (List.length l))) as [Hle | Hgt].
  - now rewrite Z.min_l.
  - rewrite Z.min_r by lia. rewrite Nat2Z.id.
    rewrite !firstn_all2; trivial; lia.
Qed.

Lemma slice0_In l e x : In x (Js.slice0 l e) -> In x l.
Proof.
  unfold Js.slice0. intros Hin.
  rewrite <- (firstn_skipn (Z.to_nat
    (if e <? 0 then Z.max (Z.of_nat (List.length l) + e) 0
     else Z.min e (Z.of_nat (List.length l)))) l).
  apply in_or_app. now left.
Qed.

Lemma slice0_length_le l e :
  0 <= e -> Z.of_nat (List.length (Js.slice0 l e)) <= e.
Proof.
  intros He. rewrite slice0_nonneg by assumption.
  rewrite length_firstn. lia.
Qed.

Lemma slice0_length_short l e :
  0 <= e -> e < Z.of_nat (List.length l) ->
  List.length (Js.slice0 l e) = Z.to_nat e.
Proof.
  intros He Hlt. rewrite slice0_nonneg by assumption.
  rewrite length_firstn. lia.
Qed.

Lemma slice0_nil e : Js.slice0 (@nil A) e = [].
Proof. unfold Js.slice0. now rewrite firstn_nil. Qed.

End SliceFacts.

Lemma prefix_substring0 (s : string) (k : nat) :
  String.prefix (substring 0 k s) s = true.
Proof.
  revert k. induction s as [|c s IH]; intros [|k]; simpl; trivial.
  destruct (ascii_dec c c) as [_|Hne]; [apply IH | now elim Hne].
Qed.

Lemma string_slice0_drop_last (s : string) :
  Js.string_slice0 s (-1) = substring 0 (String.length s - 1) s.
Proof.
  unfold Js.string_slice0. change (-1 <? 0) with true. cbv iota.
  replace (Z.to_nat (Z.max (Z.of_nat (String.length s) + -1) 0))
    with (String.length s - 1)%nat by lia.
  reflexivity.
Qed.

Lemma emitted_app (st st' : State) (es : list Effect) :
  log st' = log st ++ es -> emitted st st' = es.
Proof.
  intros Hlog. unfold emitted. rewrite Hlog.
  rewrite skipn_app, skipn_all, Nat.sub_diag. reflexivity.
Qed.

(** ** Intake: what [handleFiles] computes *)

Section IntakeFacts.

Variable B : Browser.
Variable P : Props.

(** The code's matcher is the rule of the specification. *)
Lemma isValidFileType_pattern_matches (f : File.t) :
  isValidFileType P f
  = existsb (fun pattern => pattern_matches pattern (File.type f))
            (acceptedTypes P).
Proof.
  unfold isValidFileType. induction (acceptedTypes P) as [|p ps IH];
    simpl; trivial.
  rewrite IH. f_equal. unfold pattern_matches, Js.startsWith.
  rewrite string_slice0_drop_last.
  destruct (Js.endsWith p "/*"); simpl.
  - destruct (String.eqb_spec (File.type f) p) as [->|_]; simpl; trivial.
    apply prefix_substring0.
  - now rewrite orb_false_r.
Qed.

Lemma matches_no_pattern_invalid (f : File.t) :
  matches_no_pattern P f -> isValidFileType P f = false.
Proof.
  intros Hno. rewrite isValidFileType_pattern_matches.
  destruct (existsb _ _) eqn:Hex; trivial.
  apply existsb_exists in Hex as (p & Hin & Hm).
  rewrite (Hno p Hin) in Hm. discriminate.
Qed.

Lemma validate_true (f : File.t) :
  fst (validate P f) = true <->
  isValidFileType P f = true /\ File.size f <= maxFileSize P.
Proof.
  unfold validate.
  destruct (isValidFileType P f); simpl.
  - destruct (File.size f >? maxFileSize P) eqn:Hgt; simpl.
    + apply Z.gtb_lt in Hgt. split; [discriminate | lia].
    + split; trivial. intros _. split; trivial.
      rewrite Z.gtb_ltb in Hgt. apply Z.ltb_ge in Hgt. lia.
  - split; [discriminate | intros [Hf _]; discriminate].
Qed.

Lemma validFiles_In (f : File.t) (batch : list File.t) :
  In f (validFiles P batch) <->
  In f batch /\ isValidFileType P f = true /\ File.size f <= maxFileSize P.
Proof.
  unfold validFiles. rewrite filter_In, validate_true. tauto.
Qed.

Lemma validFiles_app (xs ys : list File.t) :
  validFiles P (xs ++ ys) = validFiles P xs ++ validFiles P ys.
Proof. apply filter_app. Qed.

Lemma validFiles_oversized (batch : list File.t) :
  Forall (fun f => File.size f > maxFileSize P) batch ->
  validFiles P batch = [].
Proof.
  intros Hall. destruct (validFiles P batch) as [|f fs] eqn:Hv; trivial.
  assert (Hin : In f (validFiles P batch)) by (rewrite Hv; now left).
  apply validFiles_In in Hin as (Hin & _ & Hle).
  rewrite Forall_forall in Hall. specialize (Hall f Hin). lia.
Qed.

Lemma warned_unsupported (f : File.t) (batch : list File.t) :
  In f batch -> isValidFileType P f = false ->
  In (ConsoleWarn (unsupported_type_msg f)) (validation_warnings P batch).
Proof.
  intros Hin Hbad. unfold validation_warnings. apply in_flat_map.
  exists f. split; trivial. unfold validate. rewrite Hbad. now left.
Qed.

Lemma warned_too_large (f : File.t) (batch : list File.t) :
  In f batch -> isValidFileType P f = true ->
  File.size f > maxFileSize P ->
  In (ConsoleWarn (too_large_msg f)) (validation_warnings P batch).
Proof.
  intros Hin Hok Hbig. unfold validation_warnings. apply in_flat_map.
  exists f. split; trivial. unfold validate. rewrite Hok. simpl.
  replace (File.size f >? maxFileSize P) with true; [now left|].
  symmetry. apply Z.gtb_lt. lia.
Qed.

Lemma fileObjects_length (r u : nat) (fs : list File.t) :
  List.length (fileObjects B r u fs) = List.length fs.
Proof. revert r u. induction fs; intros; simpl; auto. Qed.

Lemma fileObjects_file (r u : nat) (fs : list File.t) :
  map file (fileObjects B r u fs) = fs.
Proof. revert r u. induction fs; intros; simpl; f_equal; auto. Qed.

Lemma fileObjects_copy (r u : nat) (fs : list File.t) :
  Forall (fun e => name e = File.name (file e)
                   /\ size e = File.size (file e)
                   /\ type e = File.type (file e))
         (fileObjects B r u fs).
Proof. revert r u. induction fs; intros; simpl; constructor; auto. Qed.

Lemma handleFiles_files (n : nat) (batch : list File.t) (st : State) :
  files (handleFiles B P n batch st) = files st ++ created B P n batch st.
Proof. reflexivity. Qed.

Lemma created_valid (n : nat) (batch : list File.t) (st : State) (f : File.t) :
  In f (map file (created B P n batch st)) ->
  In f batch /\ isValidFileType P f = true /\ File.size f <= maxFileSize P.
Proof.
  unfold created. rewrite fileObjects_file. intros Hin.
  apply slice0_In in Hin. now apply validFiles_In.
Qed.

Lemma accept_bounded (batch : list File.t) (st : State) :
  Z.of_nat (List.length (files st)) <= maxFiles P ->
  Z.of_nat (List.length (files (accept B P batch st))) <= maxFiles P.
Proof.
  intros Hinv. unfold accept. rewrite handleFiles_files.
  rewrite length_app. unfold created. rewrite fileObjects_length.
  pose proof (slice0_length_le (validFiles P batch)
                (maxFiles P - Z.of_nat (List.length (files st)))) as Hle.
  lia.
Qed.

Lemma accept_all_bounded (batches : list (list File.t)) (st : State) :
  Z.of_nat (List.length (files st)) <= maxFiles P ->
  Z.of_nat (List.length (files (accept_all B P st batches))) <= maxFiles P.
Proof.
  revert st. induction batches as [|b bs IH]; intros st Hinv; simpl; trivial.
  apply IH. now apply accept_bounded.
Qed.

End IntakeFacts.

(** ** Intake: the claims *)

(** The limit as the drop and file-input handlers keep it.  Along every
    sequence of [accept] calls that starts from an empty pending set (with a
    non-negative [maxFiles]), the pending set never holds more than
    [maxFiles] entries.  When the valid files of the next batch
    outnumber [remainingSlots = maxFiles - files.length], exactly the first
    [remainingSlots] of them are appended, in their original order, the
    pending set is then full, and the count-limit warning is printed; when
    they do not, all of them are appended. *)
Theorem pending_set_within_maxFiles
        (B : Browser) (P : Props) (st0 : State) (batches : list (list File.t)) :
  0 <= maxFiles P ->
  files st0 = [] ->
  let st := accept_all B P st0 batches in
  Z.of_nat (List.length (files st)) <= maxFiles P
  /\ forall batch,
      let valid := validFiles P batch in
      let remainingSlots := maxFiles P - Z.of_nat (List.length (files st)) in
      let st' := accept B P batch st in
      (remainingSlots < Z.of_nat (List.length valid) ->
       files st' = files st ++ fileObjects B (randoms st) (urls st)
                                 (firstn (Z.to_nat remainingSlots) valid)
       /\ Z.of_nat (List.length (files st')) = maxFiles P
       /\ In (ConsoleWarn (limit_msg P (Z.to_nat remainingSlots)))
             (emitted st st'))
      /\ (Z.of_nat (List.length valid) <= remainingSlots ->
          files st' = files st ++ fileObjects B (randoms st) (urls st) valid).
Proof.
  intros Hmax Hempty st.
  assert (Hinv : Z.of_nat (List.length (files st)) <= maxFiles P).
  { apply accept_all_bounded. rewrite Hempty. simpl. lia. }
  split; [exact Hinv|].
  intros batch valid remainingSlots st'.
  assert (Hrem : 0 <= remainingSlots) by (unfold remainingSlots; lia).
  assert (Hfiles : files st' = files st ++ fileObjects B (randoms st) (urls st)
                                 (firstn (Z.to_nat remainingSlots) valid)).
  { unfold st', accept. rewrite handleFiles_files. unfold created.
    fold valid. fold remainingSlots. now rewrite slice0_nonneg. }
  split.
  - intros Hover. split; [exact Hfiles|]. split.
    + rewrite Hfiles, length_app, fileObjects_length, length_firstn.
      unfold remainingSlots in *. lia.
    + assert (Hlen : List.length (Js.slice0 valid remainingSlots)
                     = Z.to_nat remainingSlots)
        by (apply slice0_length_short; assumption).
      erewrite emitted_app; [|unfold st', accept, handleFiles; simpl;
                               reflexivity].
      apply in_or_app. right. apply in_or_app. left.
      fold valid. fold remainingSlots. rewrite Hlen.
      replace (Z.to_nat remainingSlots <? List.length valid)%nat with true.
      * now left.
      * symmetry. apply Nat.ltb_lt. lia.
  - intros Hfit. rewrite Hfiles. rewrite firstn_all2; trivial. lia.
Qed.

(** C5.  A file of the batch whose MIME type matches no accepted pattern
    (exact equality, or prefix match for a pattern ending in "/*") is never
    among the entries [handleFiles] appends, and a type-rejection warning
    naming it is printed. *)
Theorem unmatched_type_rejected
        (B : Browser) (P : Props) (n : nat) (batch : list File.t) (st : State)
        (f : File.t) :
  In f batch ->
  matches_no_pattern P f ->
  let st' := handleFiles B P n batch st in
  files st' = files st ++ created B P n batch st
  /\ ~ In f (map file (created B P n batch st))
  /\ In (ConsoleWarn (unsupported_type_msg f)) (emitted st st').
Proof.
  intros Hin Hno st'.
  pose proof (matches_no_pattern_invalid P f Hno) as Hbad.
  split; [reflexivity|]. split.
  - intros Hadded. apply created_valid in Hadded as (_ & Hok & _).
    congruence.
  - erewrite emitted_app; [|unfold st', handleFiles; simpl; reflexivity].
    apply in_or_app. left. now apply warned_unsupported.
Qed.

(** C10.  The size check is strict: a file of exactly [maxFileSize] bytes
    whose type is accepted passes validation without a warning, and when
    fewer valid files precede it in the batch than there are remaining slots,
    its entry is appended at the position that follows them. *)
Theorem exact_size_accepted
        (B : Browser) (P : Props) (n : nat) (before after : list File.t)
        (f : File.t) (st : State) :
  File.size f = maxFileSize P ->
  isValidFileType P f = true ->
  Z.of_nat (List.length (validFiles P before)) < maxFiles P - Z.of_nat n ->
  let st' := handleFiles B P n (before ++ f :: after) st in
  validate P f = (true, [])
  /\ exists e,
      nth_error (files st')
                (List.length (files st) + List.length (validFiles P before))
      = Some e
      /\ file e = f /\ size e = maxFileSize P.
Proof.
  intros Hsize Hok Hslot st'.
  assert (Hval : validate P f = (true, [])).
  { unfold validate. rewrite Hok. simpl.
    replace (File.size f >? maxFileSize P) with false; trivial.
    symmetry. rewrite Z.gtb_ltb. apply Z.ltb_ge. lia. }
  split; [exact Hval|].
  set (k := List.length (validFiles P before)) in *.
  set (r := maxFiles P - Z.of_nat n) in *.
  assert (Hpos : nth_error (files st') (List.length (files st) + k)
                 = nth_error (created B P n (before ++ f :: after) st) k).
  { unfold st'. rewrite handleFiles_files, nth_error_app2 by lia.
    f_equal. lia. }
  assert (Hnth : nth_error (map file (created B P n (before ++ f :: after) st))
                           k = Some f).
  { unfold created. rewrite fileObjects_file. fold r.
    rewrite slice0_nonneg by lia.
    rewrite validFiles_app. simpl. rewrite Hval. simpl.
    fold (validFiles P after).
    rewrite nth_error_firstn.
    replace (k <? Z.to_nat r)%nat with true
      by (symmetry; apply Nat.ltb_lt; lia).
    rewrite nth_error_app2 by (fold k; lia).
    fold k. now rewrite Nat.sub_diag. }
  rewrite nth_error_map in Hnth.
  destruct (nth_error (created B P n (before ++ f :: after) st) k)
    as [e|] eqn:He; [|discriminate].
  simpl in Hnth. injection Hnth as Hfile.
  exists e. split; [exact Hpos|]. split; [exact Hfile|].
  apply nth_error_In in He. unfold created in He.
  pose proof (fileObjects_copy B (randoms st) (urls st)
                (Js.slice0 (validFiles P (before ++ f :: after))
                           (maxFiles P - Z.of_nat n))) as Hall.
  rewrite Forall_forall in Hall.
  destruct (Hall e He) as (_ & Hcopy & _).
  rewrite Hcopy, Hfile. exact Hsize.
Qed.

(** C3, as amended.  No file larger than [maxFileSize] is ever among the
    entries [handleFiles] appends.  For a batch made of such files only, the
    pending set is left as it was, every file of the batch is warned about
    (a size rejection when its type is accepted, a type rejection otherwise),
    and the [onFilesChange] observer, when there is one, is invoked with the
    unchanged pending set. *)
Theorem oversized_never_added
        (B : Browser) (P : Props) (n : nat) (batch : list File.t) (st : State) :
  let st' := handleFiles B P n batch st in
  files st' = files st ++ created B P n batch st
  /\ (forall f, File.size f > maxFileSize P ->
                ~ In f (map file (created B P n batch st)))
  /\ (Forall (fun f => File.size f > maxFileSize P) batch ->
      files st' = files st
      /\ emitted st st' = validation_warnings P batch ++ notify P (files st)
      /\ (forall f, In f batch ->
            In (ConsoleWarn (if isValidFileType P f then too_large_msg f
                             else unsupported_type_msg f))
               (validation_warnings P batch))
      /\ (onFilesChange P = true ->
          In (OnFilesChange (files st)) (emitted st st'))).
Proof.
  intros st'. split; [reflexivity|]. split.
  - intros f Hbig Hadded.
    apply created_valid in Hadded as (_ & _ & Hle). lia.
  - intros Hall.
    pose proof (validFiles_oversized P batch Hall) as Hnone.
    assert (Hfiles : files st' = files st).
    { unfold st'. rewrite handleFiles_files. unfold created.
      rewrite Hnone, slice0_nil. simpl. apply app_nil_r. }
    assert (Hlog : emitted st st'
                   = validation_warnings P batch ++ notify P (files st)).
    { apply emitted_app. unfold st', handleFiles. simpl.
      rewrite Hnone, slice0_nil. simpl. now rewrite app_nil_r. }
    split; [exact Hfiles|]. split; [exact Hlog|]. split.
    + intros f Hin. rewrite Forall_forall in Hall.
      destruct (isValidFileType P f) eqn:Hty.
      * apply warned_too_large; auto.
      * now apply warned_unsupported.
    + intros Hobs. rewrite Hlog. apply in_or_app. right.
      unfold notify. rewrite Hobs. now left.
Qed.

(** C3 as worded fails: for the single oversized photo the observer is
    invoked (with the unchanged, empty pending set). *)
Lemma oversized_batch_notifies_observer :
  ~ oversized_batch_is_silent host pageProps initialState [hugePhoto].
Proof.
  intros Hsilent.
  assert (Hall : Forall (fun f => File.size f > maxFileSize pageProps)
                        [hugePhoto])
    by (repeat constructor).
  destruct (Hsilent Hall) as (_ & _ & Hnever).
  apply (Hnever []). vm_compute. right. now left.
Qed.

(** An oversized file of an unaccepted type gets the type rejection, not the
    size rejection: the type check comes first. *)
Remark oversized_unaccepted_type_warning :
  emitted initialState (accept host pageProps [hugeArchive] initialState)
  = [ConsoleWarn "File huge.zip is not a supported type"; OnFilesChange []].
Proof. reflexivity. Qed.

Lemma pending_set_within_maxFiles_witness :
  let st := accept_all host twoSlots initialState [[photoA]] in
  let st' := accept host twoSlots [photoB; notes; photoC] st in
  Z.of_nat (List.length (files st)) <= maxFiles twoSlots
  /\ files st' = files st ++ fileObjects host (randoms st) (urls st) [photoB]
  /\ Z.of_nat (List.length (files st')) = maxFiles twoSlots
  /\ In (ConsoleWarn "Only adding 1 files due to maximum limit of 2")
        (emitted st st').
Proof.
  destruct (pending_set_within_maxFiles host twoSlots initialState [[photoA]])
    as [Hbound Hnext].
  - vm_compute. discriminate.
  - reflexivity.
  - split; [exact Hbound|].
    apply (Hnext [photoB; notes; photoC]). vm_compute. reflexivity.
Defined.

Lemma unmatched_type_rejected_witness :
  let st' := handleFiles host pageProps 0 [photoA; notes] initialState in
  files st' = files initialState
                ++ created host pageProps 0 [photoA; notes] initialState
  /\ ~ In notes (map file (created host pageProps 0 [photoA; notes]
                                   initialState))
  /\ In (ConsoleWarn (unsupported_type_msg notes)) (emitted initialState st').
Proof.
  apply (unmatched_type_rejected host pageProps 0%nat [photoA; notes]
                                 initialState notes).
  - simpl. right. now left.
  - intros pattern [<- | []]. reflexivity.
Defined.

Lemma exact_size_accepted_witness :
  let st' := handleFiles host pageProps 0 ([photoA; notes] ++ exactPhoto :: [photoB])
                         initialState in
  validate pageProps exactPhoto = (true, [])
  /\ exists e,
      nth_error (files st')
                (List.length (files initialState)
                 + List.length (validFiles pageProps [photoA; notes]))
      = Some e
      /\ file e = exactPhoto /\ size e = maxFileSize pageProps.
Proof.
  apply (exact_size_accepted host pageProps 0%nat [photoA; notes] [photoB]
                             exactPhoto initialState).
  - reflexivity.
  - reflexivity.
  - vm_compute. reflexivity.
Defined.

Lemma oversized_never_added_witness :
  files (handleFiles host pageProps 0 [hugePhoto; hugeArchive] initialState)
  = files initialState
  /\ ~ In hugePhoto
        (map file (created host pageProps 0 [hugePhoto; hugeArchive]
                           initialState)).
Proof.
  destruct (oversized_never_added host pageProps 0%nat [hugePhoto; hugeArchive]
                                  initialState) as (_ & Hnever & Hbatch).
  split.
  - apply Hbatch. repeat constructor.
  - apply Hnever. reflexivity.
Defined.

(** ** Removal *)

Section RemoveFacts.

Variable rid : string.

Let keeps (f : FileObject) : bool := negb (String.eqb (id f) rid).
Let hits (f : FileObject) : bool := String.eqb (id f) rid.

Lemma filter_keeps_twice (l : list FileObject) :
  filter keeps (filter keeps l) = filter keeps l.
Proof.
  induction l as [|f l IH]; simpl; trivial.
  destruct (keeps f) eqn:Hk; simpl; [rewrite Hk, IH|]; trivial.
Qed.

Lemma find_after_filter (l : list FileObject) :
  find hits (filter keeps l) = None.
Proof.
  induction l as [|f l IH]; simpl; trivial.
  destruct (keeps f) eqn:Hk; simpl; trivial.
  unfold keeps in Hk. unfold hits at 1.
  destruct (String.eqb (id f) rid); [discriminate | exact IH].
Qed.

Lemma absent_filter (l : list FileObject) :
  ~ In rid (map id l) -> filter keeps l = l /\ find hits l = None.
Proof.
  induction l as [|f l IH]; simpl; intros Habs; [split; trivial|].
  assert (Hne : id f <> rid) by tauto.
  assert (Hrest : ~ In rid (map id l)) by tauto.
  destruct (IH Hrest) as [Hf Hn].
  unfold keeps at 1, hits at 1.
  apply String.eqb_neq in Hne. rewrite Hne. simpl.
  now rewrite Hf.
Qed.

End RemoveFacts.

(** C6, as amended.  A second [removeFile(id)] changes neither the pending
    set nor any other part of the state and revokes no object URL; removing
    an identifier that no entry carries leaves the pending set as it was and
    revokes nothing.  Neither call is silent: the [onFilesChange] observer,
    when supplied, is invoked again with the unchanged pending set, and that
    is the only effect. *)
Theorem removeFile_again
        (P : Props) (rid : string) (st : State) :
  let st1 := removeFile P rid st in
  let st2 := removeFile P rid st1 in
  files st2 = files st1
  /\ st2 = emit (notify P (files st1)) st1
  /\ emitted st1 st2 = notify P (files st1)
  /\ (forall url, ~ In (RevokeObjectURL url) (emitted st1 st2))
  /\ (~ In rid (map id (files st)) ->
      files st1 = files st
      /\ st1 = emit (notify P (files st)) st
      /\ emitted st st1 = notify P (files st)).
Proof.
  intros st1 st2.
  assert (Hst2 : st2 = emit (notify P (files st1)) st1).
  { unfold st2, removeFile at 1. fold st1.
    assert (Hfiles1 : files st1 = filter
              (fun f => negb (String.eqb (id f) rid)) (files st))
      by reflexivity.
    rewrite Hfiles1 at 1 2 3.
    rewrite find_after_filter, filter_keeps_twice, <- Hfiles1.
    unfold emit. simpl. now rewrite <- Hfiles1. }
  assert (Hem : emitted st1 st2 = notify P (files st1)).
  { apply emitted_app. rewrite Hst2. reflexivity. }
  split; [rewrite Hst2; reflexivity|]. split; [exact Hst2|].
  split; [exact Hem|]. split.
  - intros url. rewrite Hem. unfold notify.
    destruct (onFilesChange P); simpl; [intros [Heq | []]; discriminate | auto].
  - intros Habs. destruct (absent_filter rid (files st) Habs) as [Hf Hn].
    assert (Hst1 : st1 = emit (notify P (files st)) st).
    { unfold st1, removeFile. rewrite Hn, Hf. reflexivity. }
    split; [rewrite Hst1; reflexivity|]. split; [exact Hst1|].
    apply emitted_app. rewrite Hst1. reflexivity.
Qed.

(** C6 as worded fails: removing an identifier that is not there is not a
    no-op, the observer is called. *)
Lemma removeFile_absent_notifies :
  ~ remove_is_idempotent_noop pageProps initialState "r0".
Proof.
  intros [_ Hnoop].
  assert (Habs : ~ In "r0" (map id (files initialState))) by (simpl; tauto).
  specialize (Hnoop Habs).
  apply (f_equal log) in Hnoop. vm_compute in Hnoop. discriminate.
Qed.

Lemma removeFile_again_witness :
  let st := accept host pageProps [photoA; photoB] initialState in
  let st1 := removeFile pageProps "r0" st in
  let st2 := removeFile pageProps "r0" st1 in
  let gone := removeFile pageProps "zz" st in
  (files st2 = files st1
   /\ st2 = emit (notify pageProps (files st1)) st1
   /\ emitted st1 st2 = notify pageProps (files st1))
  /\ (files gone = files st
      /\ gone = emit (notify pageProps (files st)) st
      /\ emitted st gone = notify pageProps (files st)).
Proof.
  destruct (removeFile_again pageProps "r0"
              (accept host pageProps [photoA; photoB] initialState))
    as (Hfiles & Hstate & Hlog & _).
  destruct (removeFile_again pageProps "zz"
              (accept host pageProps [photoA; photoB] initialState))
    as (_ & _ & _ & _ & Habsent).
  split.
  - exact (conj Hfiles (conj Hstate Hlog)).
  - apply Habsent. simpl. intuition discriminate.
Defined.

(** ** Upload *)

(** What [handleUpload] does when the caller's [onUpload] throws on the
    pending set: it leaves the pending set as it was.  With a non-empty pending
    set the exception is caught: it is logged, the failure alert is shown and
    [isUploading] is reset.  With an empty pending set [handleUpload] returns
    at once: [onUpload] is not called and nothing is reported. *)
Theorem throwing_upload_caught
        (P : Props) (st : State)
        (upload : list FileObject -> UploadOutcome) (e : string) :
  onUpload P = Some upload ->
  upload (files st) = Threw e ->
  let st' := handleUpload P st in
  files st' = files st
  /\ emitted st st'
     = match files st with
       | [] => []
       | _ :: _ => [OnUpload (files st);
                    ConsoleError ("Upload error: " ++ e);
                    Alert upload_failed_msg]
       end
  /\ isUploading st'
     = match files st with
       | [] => isUploading st
       | _ :: _ => false
       end.
Proof.
  intros Hup Hthrow st'. unfold st', handleUpload.
  rewrite Hup, Hthrow.
  destruct (files st) as [|f fs] eqn:Hfiles; simpl.
  - rewrite Hfiles. split; trivial. split; trivial.
    unfold emitted. now rewrite skipn_all.
  - rewrite Hfiles. split; trivial. split; trivial.
    apply emitted_app. reflexivity.
Qed.

Lemma throwing_upload_caught_witness :
  let st := accept host pageProps [photoA] initialState in
  let st' := handleUpload pageProps st in
  files st' = files st
  /\ emitted st st'
     = [OnUpload (files st);
        ConsoleError "Upload error: network down";
        Alert upload_failed_msg]
  /\ isUploading st' = false.
Proof.
  apply (throwing_upload_caught pageProps
           (accept host pageProps [photoA] initialState)
           (fun _ => Threw "network down") "network down");
    reflexivity.
Defined.

(** ** Camera session *)

(** C7, as amended.  In a live session whose <video> reports a zero width or
    height, [capturePhoto] starts no [toBlob] (no file is produced), leaves
    the pending set, the stream and the session as they were, stops no track,
    and reports one error: the not-ready alert when the canvas gives a 2D
    context, the canvas-not-supported alert when it does not (that check
    comes first). *)
Theorem zero_frame_capture
        (context : bool) (videoWidth videoHeight : Z) (st : State) :
  Live st ->
  videoWidth = 0 \/ videoHeight = 0 ->
  let st' := capturePhoto context videoWidth videoHeight st in
  st' = emit (if context then [Alert not_ready_msg]
              else [ConsoleError "Unable to get canvas context";
                    Alert no_canvas_msg]) st
  /\ files st' = files st
  /\ blobJobs st' = blobJobs st
  /\ Live st' /\ stream st' = stream st /\ showCamera st' = true
  /\ emitted st st' = (if context then [Alert not_ready_msg]
                       else [ConsoleError "Unable to get canvas context";
                             Alert no_canvas_msg])
  /\ forall s, ~ In (StopTracks s) (emitted st st').
Proof.
  intros [Hshow [s Hs]] Hzero st'.
  assert (Hst' : st' = emit (if context then [Alert not_ready_msg]
                             else [ConsoleError "Unable to get canvas context";
                                   Alert no_canvas_msg]) st).
  { unfold st', capturePhoto, videoRef_current, canvasRef_current.
    rewrite Hshow. simpl.
    destruct context; simpl; trivial.
    replace ((videoWidth =? 0) || (videoHeight =? 0)) with true; trivial.
    symmetry. apply orb_true_iff.
    destruct Hzero as [-> | ->]; [left | right]; reflexivity. }
  assert (Hem : emitted st st'
                = (if context then [Alert not_ready_msg]
                   else [ConsoleError "Unable to get canvas context";
                         Alert no_canvas_msg])).
  { apply emitted_app. rewrite Hst'. reflexivity. }
  split; [exact Hst'|]. rewrite Hem, Hst'. simpl.
  repeat split; trivial.
  - now exists s.
  - intros s0 Hin. destruct context; simpl in Hin;
      repeat (destruct Hin as [Hin | Hin]; try discriminate); exact Hin.
Qed.

(** C7 as worded fails when the canvas has no 2D context: the error reported
    is the canvas one, not the not-ready one. *)
Lemma zero_frame_capture_without_context :
  ~ zero_frame_capture_reports_not_ready liveState false 0 0.
Proof.
  intros Hrep.
  assert (Hlive : Live liveState) by (split; [reflexivity | now exists 7%nat]).
  destruct (Hrep Hlive (or_introl eq_refl)) as (_ & _ & Halert & _).
  vm_compute in Halert.
  destruct Halert as [Hbad | [Hbad | []]]; discriminate.
Qed.

Lemma zero_frame_capture_witness :
  let st' := capturePhoto true 0 480 liveState in
  st' = emit [Alert not_ready_msg] liveState
  /\ files st' = files liveState
  /\ blobJobs st' = blobJobs liveState
  /\ Live st' /\ stream st' = stream liveState /\ showCamera st' = true
  /\ emitted liveState st' = [Alert not_ready_msg]
  /\ forall s, ~ In (StopTracks s) (emitted liveState st').
Proof.
  apply (zero_frame_capture true 0 480 liveState).
  - split; [reflexivity | now exists 7%nat].
  - left. reflexivity.
Defined.

(** C2, evaluated on the code.  From an idle session, when the cancel arrives
    while [getUserMedia] is in flight, the stream that resolves afterwards is
    kept in the [stream] state and none of its tracks is stopped: nothing at
    all is emitted.  Only the binding to the <video> element does not happen,
    because the modal is gone when the timer runs. *)
Theorem cancel_in_flight_keeps_stream
        (B : Browser) (P : Props) (st : State) (s : MediaStream) :
  mediaDevices B = true ->
  showCamera st = false -> stream st = None ->
  requests st = [] -> timers st = [] ->
  acquiring (run B P st [ClickTakePhoto])
  /\ let st' := run B P st (cancel_in_flight s) in
     stream st' = Some s
     /\ showCamera st' = false
     /\ srcObject st' = None
     /\ log st' = log st
     /\ ~ In (StopTracks s) (emitted st st').
Proof.
  intros Hdev Hshow Hstream Hreq Htim.
  assert (Hrun : run B P st (cancel_in_flight s)
                 = setStream (Some s) (setSrcObject None st)).
  { unfold run, cancel_in_flight. simpl.
    unfold startCamera. rewrite Hdev. simpl.
    unfold stopCamera. simpl. rewrite Hstream.
    unfold getUserMedia_resolved. simpl. rewrite Hreq. simpl.
    unfold timer_fired. simpl. rewrite Htim. simpl.
    unfold setStream, setSrcObject. simpl.
    destruct st; simpl in *; subst; reflexivity. }
  split.
  - unfold run. simpl. unfold startCamera. rewrite Hdev. simpl.
    unfold acquiring. simpl. rewrite Hreq. simpl.
    repeat split; trivial. discriminate.
  - intros st'. unfold st'. rewrite Hrun. simpl.
    repeat split; trivial.
    unfold emitted. simpl. rewrite skipn_all. simpl. tauto.
Qed.

Lemma cancel_in_flight_keeps_stream_witness :
  let st' := run host pageProps initialState (cancel_in_flight 3%nat) in
  stream st' = Some 3%nat
  /\ showCamera st' = false
  /\ srcObject st' = None
  /\ log st' = log initialState
  /\ ~ In (StopTracks 3%nat) (emitted initialState st').
Proof.
  apply (cancel_in_flight_keeps_stream host pageProps initialState 3%nat);
    reflexivity.
Defined.

(** The sibling path: a cancel that arrives after the stream was stored does
    stop its tracks and drops the reference. *)
Remark cancel_after_resolution_stops_stream :
  let st' := run host pageProps initialState
                 [ClickTakePhoto; MediaResolved 3%nat; ClickCancel] in
  stream st' = None /\ showCamera st' = false /\ log st' = [StopTracks 3%nat].
Proof. repeat split. Qed.

(** The callback of [toBlob] calls the [handleFiles] of the render in which
    the capture button was clicked.  Two captures clicked in the same render
    both count their slot against the [files.length] of that render. *)
Remark overlapping_captures_share_a_closure :
  let P := mkProps true None (5 * MiB) ["image/*"] 1 in
  let st := run host P liveState
                [ClickCapture true 640 480; ClickCapture true 640 480;
                 BlobReady (Some 5000) "2024-01-01T10:00:00.000Z";
                 BlobReady (Some 5000) "2024-01-01T10:00:00.200Z"] in
  map job_files_length
      (blobJobs (run host P liveState
                     [ClickCapture true 640 480; ClickCapture true 640 480]))
  = [0%nat; 0%nat]
  /\ List.length (files st) = 2%nat.
Proof. split; reflexivity. Qed.

(** ** formatFileSize *)

(** The unit index is the base-1024 logarithm, rounded down. *)
Lemma floor_log1024_spec (b : Z) :
  1 <= b ->
  0 <= Js.floor_log1024 b
  /\ 1024 ^ Js.floor_log1024 b <= b < 1024 ^ (Js.floor_log1024 b + 1).
Proof.
  intros Hb. unfold Js.floor_log1024.
  pose proof (Z.log2_nonneg b) as Hl.
  destruct (Z.log2_spec b ltac:(lia)) as [Hlo Hhi].
  set (L := Z.log2 b) in *. set (i := L / 10).
  assert (Hi : 10 * i <= L < 10 * i + 10).
  { unfold i. pose proof (Z.div_mod L 10 ltac:(lia)).
    pose proof (Z.mod_pos_bound L 10 ltac:(lia)). lia. }
  assert (Hi0 : 0 <= i) by (unfold i; apply Z.div_pos; lia).
  change 1024 with (2 ^ 10).
  rewrite <- !Z.pow_mul_r by lia.
  split; trivial. split.
  - eapply Z.le_trans; [|exact Hlo]. apply Z.pow_le_mono_r; lia.
  - eapply Z.lt_le_trans; [exact Hhi|]. apply Z.pow_le_mono_r; lia.
Qed.

(** Below 1024^4 the index stays inside the four units. *)
Lemma unit_in_table (b : Z) :
  1 <= b < 1024 ^ 4 ->
  exists u, nth_error sizes (Z.to_nat (Js.floor_log1024 b)) = Some u
            /\ sizes_at (Js.floor_log1024 b) = u.
Proof.
  intros [Hlo Hhi].
  destruct (floor_log1024_spec b Hlo) as (Hi0 & Hle & _).
  assert (Hi : Js.floor_log1024 b < 4).
  { destruct (Z.lt_ge_cases (Js.floor_log1024 b) 4) as [|Hge]; trivial.
    assert (1024 ^ 4 <= 1024 ^ Js.floor_log1024 b)
      by (apply Z.pow_le_mono_r; lia).
    lia. }
  unfold sizes_at.
  destruct (Js.floor_log1024 b <? 0) eqn:Hneg;
    [apply Z.ltb_lt in Hneg; lia|].
  destruct (nth_error sizes (Z.to_nat (Js.floor_log1024 b))) as [u|] eqn:Hu.
  - now exists u.
  - apply nth_error_None in Hu. simpl in Hu. lia.
Qed.

(** From 1024^4 on the index leaves the table: no clamping takes place and
    the unit prints as "undefined". *)
Lemma unit_beyond_table (b : Z) :
  1024 ^ 4 <= b ->
  formatFileSize b
  = (Js.string_of_hundredths
       (Js.toFixed2_hundredths b (1024 ^ Js.floor_log1024 b))
     ++ " undefined")%string.
Proof.
  intros Hb.
  assert (Hpos : 1 <= b) by (assert (0 < 1024 ^ 4) by reflexivity; lia).
  destruct (floor_log1024_spec b Hpos) as (Hi0 & _ & Hhi).
  assert (Hi : 4 <= Js.floor_log1024 b).
  { destruct (Z.lt_ge_cases (Js.floor_log1024 b) 4) as [Hlt|]; trivial.
    assert (1024 ^ (Js.floor_log1024 b + 1) <= 1024 ^ 4)
      by (apply Z.pow_le_mono_r; lia).
    lia. }
  unfold formatFileSize.
  destruct (b =? 0) eqn:H0; [apply Z.eqb_eq in H0; lia|].
  destruct (b <? 0) eqn:Hn; [apply Z.ltb_lt in Hn; lia|].
  cbv zeta. f_equal. f_equal. unfold sizes_at.
  destruct (Js.floor_log1024 b <? 0) eqn:Hneg;
    [apply Z.ltb_lt in Hneg; lia|].
  destruct (nth_error sizes (Z.to_nat (Js.floor_log1024 b))) eqn:Hu; trivial.
  assert (Hlen : (Z.to_nat (Js.floor_log1024 b) < List.length sizes)%nat)
    by (apply nth_error_Some; congruence).
  simpl in Hlen. lia.
Qed.

(** The examples of the specification. *)
Lemma formatFileSize_examples :
  formatFileSize 0 = "0 Bytes"
  /\ formatFileSize 1024 = "1 KB"
  /\ formatFileSize 1536 = "1.5 KB"
  /\ formatFileSize (10 * 1024 * 1024) = "10 MB".
Proof. repeat split. Qed.

(** C4, evaluated on the code.  The unit index is not clamped to the unit
    table: two tebibytes print with the unit "undefined", where a clamped
    index would give "2048 GB". *)
Theorem formatFileSize_unit_not_clamped :
  Js.floor_log1024 (2 * 1024 ^ 4) = 4
  /\ nth_error sizes 4 = None
  /\ formatFileSize (2 * 1024 ^ 4) = "2 undefined".
Proof. repeat split. Qed.

(** ** Identifiers *)

(** The identifiers of the appended entries are the successive results of
    [Math.random]; nothing compares them with one another or with the
    identifiers already in the pending set. *)
Lemma fileObjects_id (B : Browser) (r u : nat) (fs : list File.t) :
  map id (fileObjects B r u fs)
  = map (Math_random_id B) (seq r (List.length fs)).
Proof. revert r u. induction fs; intros; simpl; f_equal; auto. Qed.

(** Identifiers are stable: the entries that survive a removal, and the
    entries that were pending before an intake, are unchanged. *)
Lemma removeFile_keeps_entries (P : Props) (rid : string) (st : State)
      (e : FileObject) :
  In e (files (removeFile P rid st)) <-> In e (files st) /\ id e <> rid.
Proof.
  unfold removeFile. simpl. rewrite filter_In, negb_true_iff.
  now rewrite String.eqb_neq.
Qed.

(** C9, evaluated on the code.  When [Math.random] returns the same value
    for two files of a batch, their entries carry the same identifier;
    [removeFile] of that identifier then removes both entries and revokes the
    object URL of the first one only. *)
Theorem repeated_random_id_collides :
  let st := accept repeating_host pageProps [photoA; photoB] initialState in
  map file (files st) = [photoA; photoB]
  /\ map id (files st) = ["i"; "i"]
  /\ map preview (files st) = ["blob:0"; "blob:1"]
  /\ files (removeFile pageProps "i" st) = []
  /\ emitted st (removeFile pageProps "i" st)
     = [RevokeObjectURL "blob:0"; OnFilesChange []].
Proof. repeat split. Qed.


(** * The rest of the component *)

(** ** Accepted types and validation *)

Lemma string_length_app (a b : string) :
  String.length (a ++ b) = (String.length a + String.length b)%nat.
Proof. induction a as [|c a IH]; simpl; auto. Qed.

Lemma substring_skip_app (a b : string) :
  substring (String.length a) (String.length b) (a ++ b) = b.
Proof.
  induction a as [|c a IH]; simpl; trivial.
  induction b as [|d b IHb]; simpl; trivial. now rewrite IHb.
Qed.

Lemma substring_take_app (a b : string) (k : nat) :
  substring 0 (String.length a + k) (a ++ b) = (a ++ substring 0 k b)%string.
Proof. induction a as [|c a IH]; simpl; trivial. now rewrite IH. Qed.

Lemma endsWith_app (a suffix : string) :
  Js.endsWith (a ++ suffix) suffix = true.
Proof.
  unfold Js.endsWith. rewrite string_length_app.
  replace (String.length a + String.length suffix - String.length suffix)%nat
    with (String.length a) by lia.
  rewrite substring_skip_app, String.eqb_refl, andb_true_r.
  apply Nat.leb_le. lia.
Qed.

(** X1.  With the single accepted pattern [c/*], a file is accepted exactly
    when its MIME type starts with [c/]; nothing else of the pattern is
    interpreted (so the pattern "*/*" accepts only types that start with
    "*/"). *)
Theorem wildcard_accepts_by_prefix (P : Props) (f : File.t) (c : string) :
  acceptedTypes P = [(c ++ "/*")%string] ->
  isValidFileType P f = String.prefix (c ++ "/") (File.type f).
Proof.
  intros Hacc. unfold isValidFileType. rewrite Hacc. simpl.
  rewrite endsWith_app, orb_false_r, string_slice0_drop_last.
  unfold Js.startsWith. f_equal.
  rewrite string_length_app. simpl String.length.
  replace (String.length c + 2 - 1)%nat with (String.length c + 1)%nat by lia.
  now rewrite substring_take_app.
Qed.

Lemma wildcard_accepts_by_prefix_witness :
  isValidFileType pageProps photoB = String.prefix "image/" (File.type photoB).
Proof.
  apply (wildcard_accepts_by_prefix pageProps photoB "image"). reflexivity.
Defined.

(** X2.  Every rejected file of a batch is warned about exactly once, in the
    order of the batch: with the type rejection when its type is not accepted,
    with the size rejection otherwise; accepted files produce no warning. *)
Theorem one_warning_per_rejected_file (P : Props) (batch : list File.t) :
  validation_warnings P batch
  = map (fun f => ConsoleWarn (if isValidFileType P f then too_large_msg f
                               else unsupported_type_msg f))
        (filter (fun f => negb (isValidFileType P f
                                && (File.size f <=? maxFileSize P)))
                batch)
  /\ (List.length (validation_warnings P batch)
      + List.length (validFiles P batch) = List.length batch)%nat.
Proof.
  unfold validation_warnings, validFiles.
  induction batch as [|f fs [IHw IHl]]; [split; reflexivity|].
  assert (Hone : validate P f
                 = if isValidFileType P f && (File.size f <=? maxFileSize P)
                   then (true, [])
                   else (false,
                         [ConsoleWarn (if isValidFileType P f
                                       then too_large_msg f
                                       else unsupported_type_msg f)])).
  { unfold validate. destruct (isValidFileType P f); simpl; trivial.
    rewrite Z.gtb_ltb, Z.leb_antisym.
    now destruct (maxFileSize P <? File.size f). }
  simpl. rewrite Hone.
  destruct (isValidFileType P f && (File.size f <=? maxFileSize P)); simpl.
  - split; [exact IHw | lia].
  - split; [now rewrite IHw | lia].
Qed.

(** X3.  The entries [handleFiles] appends come after the entries that were
    pending, which it leaves untouched, and their files are an initial segment
    of the batch's valid files, in the order of the batch. *)
Theorem handleFiles_appends_in_order
        (B : Browser) (P : Props) (n : nat) (batch : list File.t) (st : State) :
  let st' := handleFiles B P n batch st in
  firstn (List.length (files st)) (files st') = files st
  /\ exists k,
      map file (skipn (List.length (files st)) (files st'))
      = firstn k (filter (fun f => isValidFileType P f
                                   && (File.size f <=? maxFileSize P)) batch).
Proof.
  intros st'. unfold st'. rewrite handleFiles_files. split.
  - rewrite firstn_app, Nat.sub_diag, firstn_all. simpl. apply app_nil_r.
  - rewrite skipn_app, skipn_all, Nat.sub_diag. simpl.
    unfold created. rewrite fileObjects_file. unfold Js.slice0.
    eexists. f_equal. unfold validFiles. apply filter_ext.
    intros f. unfold validate.
    destruct (isValidFileType P f); simpl; trivial.
    rewrite Z.gtb_ltb, Z.leb_antisym.
    now destruct (maxFileSize P <? File.size f).
Qed.

(** X4.  On a pending set that is exactly full, [accept] adds nothing; it
    prints the limit warning (with count 0) when the batch contains a valid
    file, and the observer is still notified. *)
Theorem accept_on_full_set
        (B : Browser) (P : Props) (batch : list File.t) (st : State) :
  Z.of_nat (List.length (files st)) = maxFiles P ->
  let st' := accept B P batch st in
  files st' = files st
  /\ emitted st st'
     = validation_warnings P batch
       ++ match validFiles P batch with
          | [] => []
          | _ :: _ => [ConsoleWarn (limit_msg P 0)]
          end
       ++ notify P (files st).
Proof.
  intros Hfull st'.
  assert (Hnone : Js.slice0 (validFiles P batch)
                    (maxFiles P - Z.of_nat (List.length (files st))) = []).
  { rewrite slice0_nonneg by lia.
    replace (maxFiles P - Z.of_nat (List.length (files st))) with 0 by lia.
    reflexivity. }
  assert (Hfiles : files st' = files st).
  { unfold st', accept. rewrite handleFiles_files. unfold created.
    rewrite Hnone. simpl. apply app_nil_r. }
  split; [exact Hfiles|].
  apply emitted_app. unfold st', accept, handleFiles. simpl.
  rewrite Hnone. simpl. rewrite app_nil_r.
  now destruct (validFiles P batch).
Qed.

Lemma accept_on_full_set_witness :
  let st := accept host twoSlots [photoA; photoB] initialState in
  let st' := accept host twoSlots [notes; photoC] st in
  files st' = files st
  /\ emitted st st'
     = [ConsoleWarn "File notes.txt is not a supported type";
        ConsoleWarn "Only adding 0 files due to maximum limit of 2";
        OnFilesChange (files st)].
Proof.
  apply (accept_on_full_set host twoSlots [notes; photoC]
           (accept host twoSlots [photoA; photoB] initialState)).
  reflexivity.
Defined.

(** X5.  When the length [handleFiles] closed over exceeds [maxFiles] (the
    pending set outgrew the limit), the negative [remainingSlots] makes
    [slice] drop files from the end only: all valid files but the last
    [files.length - maxFiles] are appended. *)
Theorem handleFiles_negative_slots
        (B : Browser) (P : Props) (n : nat) (batch : list File.t) (st : State) :
  maxFiles P < Z.of_nat n ->
  let valid := validFiles P batch in
  let excess := Z.to_nat (Z.of_nat n - maxFiles P) in
  files (handleFiles B P n batch st)
  = files st ++ fileObjects B (randoms st) (urls st)
                            (firstn (List.length valid - excess) valid).
Proof.
  intros Hover valid excess. rewrite handleFiles_files. f_equal.
  unfold created, Js.slice0. fold valid.
  replace (maxFiles P - Z.of_nat n <? 0) with true
    by (symmetry; apply Z.ltb_lt; lia).
  f_equal. f_equal. unfold excess. lia.
Qed.

Lemma handleFiles_negative_slots_witness :
  map file (files (handleFiles host twoSlots 3 [photoA; photoB; photoC]
                               initialState))
  = [photoA; photoB].
Proof.
  rewrite (handleFiles_negative_slots host twoSlots 3%nat
             [photoA; photoB; photoC] initialState).
  - reflexivity.
  - vm_compute. reflexivity.
Defined.

(** ** One turn of the event loop, seen from the pending set *)

(** A turn leaves the pending set and the host counters alone, or appends
    the entries of one [handleFiles] call, or filters out one identifier. *)
Lemma step_files (B : Browser) (P : Props) (st : State) (e : Event) :
  (files (step B P st e) = files st
   /\ randoms (step B P st e) = randoms st
   /\ urls (step B P st e) = urls st)
  \/ (exists n batch,
        files (step B P st e) = files st ++ created B P n batch st
        /\ randoms (step B P st e)
           = (randoms st + List.length (created B P n batch st))%nat
        /\ urls (step B P st e)
           = (urls st + List.length (created B P n batch st))%nat)
  \/ (exists rid,
        files (step B P st e)
        = filter (fun f => negb (String.eqb (id f) rid)) (files st)
        /\ randoms (step B P st e) = randoms st
        /\ urls (step B P st e) = urls st).
Proof.
  destruct e as [fs | rid | | | s | r | | | c w h | blob iso]; simpl.
  - destruct fs as [|f fs]; [left; auto|].
    right; left. exists (List.length (files st)), (f :: fs).
    unfold handleDrop, accept, created. rewrite fileObjects_length.
    repeat split.
  - right; right. exists rid. repeat split.
  - left. unfold handleUpload.
    destruct (List.length (files st) =? 0)%nat; [auto|].
    destruct (onUpload P) as [upload|]; [destruct (upload (files st))|];
      repeat split.
  - left. unfold startCamera. destruct (negb (mediaDevices B)); repeat split.
  - left. unfold getUserMedia_resolved.
    destruct (requests st) as [|[|] rs]; repeat split.
  - left. unfold getUserMedia_rejected.
    destruct (requests st) as [|[|] rs]; [repeat split| |repeat split].
    destruct r as [nm msg|]; [|repeat split].
    repeat match goal with
           | |- context [if ?b then _ else _] => destruct b
           end; repeat split.
  - left. unfold timer_fired. destruct (timers st) as [|s ts]; [auto|].
    simpl. unfold videoRef_current. simpl.
    destruct (showCamera st); repeat split.
  - left. unfold stopCamera. destruct (stream st); repeat split.
  - left. unfold capturePhoto.
    destruct (videoRef_current st && canvasRef_current st); [|auto].
    destruct (negb c); [repeat split|].
    destruct ((w =? 0) || (h =? 0)); repeat split.
  - unfold toBlob_callback. destruct (blobJobs st) as [|j js]; [left; auto|].
    destruct blob as [bytes|]; [|left; repeat split].
    right; left. exists (job_files_length j), [capture_file bytes iso].
    unfold created. rewrite fileObjects_length.
    unfold stopCamera. destruct (job_stream j); repeat split.
Qed.

Lemma run_snoc (B : Browser) (P : Props) (st : State) (trace : list Event)
      (e : Event) :
  run B P st (trace ++ [e]) = step B P (run B P st trace) e.
Proof. unfold run. now rewrite fold_left_app. Qed.

(** ** Invariants of the pending set *)

Lemma created_entry_ok (B : Browser) (P : Props) (n : nat)
      (batch : list File.t) (st : State) :
  Forall (entry_ok P) (created B P n batch st).
Proof.
  apply Forall_forall. intros e He. unfold entry_ok.
  pose proof (fileObjects_copy B (randoms st) (urls st)
                (Js.slice0 (validFiles P batch) (maxFiles P - Z.of_nat n)))
    as Hcopy.
  rewrite Forall_forall in Hcopy.
  destruct (Hcopy e He) as (Hn & Hs & Ht).
  assert (Hin : In (file e) (map file (created B P n batch st)))
    by (apply in_map; exact He).
  apply created_valid in Hin as (_ & Hty & Hle).
  repeat split; assumption.
Qed.

(** X6.  Whatever the user and the browser do, every entry of the pending
    set went through validation: its [name], [size] and [type] are those of
    its file, its type is accepted and its size is within [maxFileSize]
    (camera captures included). *)
Theorem pending_entries_are_valid
        (B : Browser) (P : Props) (st0 : State) (trace : list Event) :
  Forall (entry_ok P) (files st0) ->
  Forall (entry_ok P) (files (run B P st0 trace)).
Proof.
  intros H0. induction trace as [|e trace IH] using rev_ind; [exact H0|].
  rewrite run_snoc.
  destruct (step_files B P (run B P st0 trace) e)
    as [(Hf & _) | [(n & batch & Hf & _) | (rid & Hf & _)]]; rewrite Hf.
  - exact IH.
  - apply Forall_app. split; [exact IH | apply created_entry_ok].
  - apply Forall_forall. intros x Hx. apply filter_In in Hx as [Hx _].
    rewrite Forall_forall in IH. now apply IH.
Qed.

Lemma pending_entries_are_valid_witness :
  Forall (entry_ok pageProps)
         (files (run host pageProps initialState
                     [Drop [photoA; hugePhoto; notes]; ClickTakePhoto;
                      MediaResolved 3%nat; TimerFired;
                      ClickCapture true 640 480;
                      BlobReady (Some 5000) "2024-01-01T10:00:00.000Z";
                      ClickRemove "r0"])).
Proof.
  apply (pending_entries_are_valid host pageProps initialState).
  simpl. constructor.
Defined.

(** *** Handles and identifiers come from distinct calls *)

Section Tags.

Variable proj : FileObject -> string.
Variable gen : nat -> string.

Lemma Forall2_filter_tags (p : FileObject -> bool) (bound : nat)
      (ks : list nat) (l : list FileObject) :
  Forall2 (fun k e => proj e = gen k) ks l ->
  NoDup ks -> Forall (fun k => (k < bound)%nat) ks ->
  exists ks',
    Forall2 (fun k e => proj e = gen k) ks' (filter p l)
    /\ NoDup ks' /\ Forall (fun k => (k < bound)%nat) ks' /\ incl ks' ks.
Proof.
  intros HR. induction HR as [|k e ks l Hke HR IH]; intros Hnd Hlt.
  - exists []. repeat split; try constructor. intros x [].
  - inversion Hnd as [|? ? Hnotin Hnd']; subst.
    inversion Hlt as [|? ? Hk Hlt']; subst.
    destruct (IH Hnd' Hlt') as (ks' & HR' & Hnd'' & Hlt'' & Hincl).
    simpl. destruct (p e).
    + exists (k :: ks'). repeat split.
      * now constructor.
      * constructor; trivial. intros Hin. apply Hnotin. now apply Hincl.
      * now constructor.
      * intros x [<- | Hx]; [now left | right; now apply Hincl].
    + exists ks'. repeat split; trivial.
      intros x Hx. right. now apply Hincl.
Qed.

Lemma tagged_filter (p : FileObject -> bool) (bound : nat)
      (l : list FileObject) :
  tagged proj gen bound l -> tagged proj gen bound (filter p l).
Proof.
  intros (ks & HR & Hnd & Hlt).
  destruct (Forall2_filter_tags p bound ks l HR Hnd Hlt)
    as (ks' & HR' & Hnd' & Hlt' & _).
  exists ks'. repeat split; assumption.
Qed.

Lemma tagged_app (bound n : nat) (l l' : list FileObject) :
  tagged proj gen bound l ->
  Forall2 (fun k e => proj e = gen k) (seq bound n) l' ->
  tagged proj gen (bound + n) (l ++ l').
Proof.
  intros (ks & HR & Hnd & Hlt) Hnew.
  exists (ks ++ seq bound n). repeat split.
  - now apply Forall2_app.
  - apply NoDup_app; trivial; [apply seq_NoDup|].
    intros k Hk Hk'. rewrite Forall_forall in Hlt.
    apply Hlt in Hk. apply in_seq in Hk'. lia.
  - apply Forall_app. split.
    + eapply Forall_impl; [|exact Hlt]. simpl. intros; lia.
    + apply Forall_forall. intros k Hk. apply in_seq in Hk. lia.
Qed.

Lemma NoDup_map_injective_on (l : list nat) :
  NoDup (map gen l) ->
  forall i j, In i l -> In j l -> gen i = gen j -> i = j.
Proof.
  induction l as [|a l IH]; simpl; intros Hnd i j Hi Hj Heq; [contradiction|].
  inversion Hnd as [|? ? Hnotin Hnd']; subst.
  destruct Hi as [<- | Hi], Hj as [<- | Hj]; trivial.
  - exfalso. apply Hnotin. rewrite Heq. now apply in_map.
  - exfalso. apply Hnotin. rewrite <- Heq. now apply in_map.
  - now apply IH.
Qed.

Lemma tagged_NoDup (bound : nat) (l : list FileObject) :
  tagged proj gen bound l ->
  NoDup (map gen (seq 0 bound)) ->
  NoDup (map proj l).
Proof.
  intros (ks & HR & Hnd & Hlt) Hgen.
  assert (Hmap : map proj l = map gen ks).
  { clear Hnd Hlt. induction HR; simpl; congruence. }
  rewrite Hmap. apply NoDup_map_NoDup_ForallPairs; trivial.
  intros i j Hi Hj Heq. rewrite Forall_forall in Hlt.
  apply (NoDup_map_injective_on (seq 0 bound) Hgen);
    trivial; apply in_seq; split; try lia.
  - apply Hlt in Hi. lia.
  - apply Hlt in Hj. lia.
Qed.

End Tags.

Lemma fileObjects_previews (B : Browser) (r u : nat) (fs : list File.t) :
  Forall2 (fun k e => preview e = createObjectURL B k)
          (seq u (List.length fs)) (fileObjects B r u fs).
Proof. revert r u. induction fs; intros; simpl; constructor; auto. Qed.

Lemma fileObjects_ids (B : Browser) (r u : nat) (fs : list File.t) :
  Forall2 (fun k e => id e = Math_random_id B k)
          (seq r (List.length fs)) (fileObjects B r u fs).
Proof. revert r u. induction fs; intros; simpl; constructor; auto. Qed.

Lemma run_tagged (B : Browser) (P : Props) (trace : list Event) :
  let st := run B P initialState trace in
  tagged preview (createObjectURL B) (urls st) (files st)
  /\ tagged id (Math_random_id B) (randoms st) (files st).
Proof.
  induction trace as [|e trace IH] using rev_ind.
  - split; exists []; repeat split; constructor.
  - cbv zeta in *. rewrite run_snoc. destruct IH as [IHu IHr].
    set (st := run B P initialState trace) in *.
    destruct (step_files B P st e)
      as [(Hf & Hr & Hu) | [(n & batch & Hf & Hr & Hu) | (rid & Hf & Hr & Hu)]];
      rewrite Hf, Hr, Hu.
    + now split.
    + unfold created in *. rewrite fileObjects_length. split.
      * apply tagged_app; trivial. apply fileObjects_previews.
      * apply tagged_app; trivial. apply fileObjects_ids.
    + split; now apply tagged_filter.
Qed.

(** X7.  Every pending entry owns its preview handle alone: as long as the
    object URLs the browser has handed out are pairwise different, no two
    entries of the pending set share a [preview], whatever happened since the
    component was mounted. *)
Theorem previews_are_distinct
        (B : Browser) (P : Props) (trace : list Event) :
  let st := run B P initialState trace in
  NoDup (map (createObjectURL B) (seq 0 (urls st))) ->
  NoDup (map preview (files st)).
Proof.
  intros st Hgen. destruct (run_tagged B P trace) as [Hu _].
  exact (tagged_NoDup preview (createObjectURL B) (urls st) (files st) Hu Hgen).
Qed.

(** X8.  Identifiers are pairwise different exactly as far as [Math.random]
    is: when the random identifiers drawn so far are pairwise different, so
    are the identifiers of the pending entries. *)
Theorem ids_are_distinct_when_random_is
        (B : Browser) (P : Props) (trace : list Event) :
  let st := run B P initialState trace in
  NoDup (map (Math_random_id B) (seq 0 (randoms st))) ->
  NoDup (map id (files st)).
Proof.
  intros st Hgen. destruct (run_tagged B P trace) as [_ Hr].
  exact (tagged_NoDup id (Math_random_id B) (randoms st) (files st) Hr Hgen).
Qed.

Lemma previews_are_distinct_witness :
  NoDup (map preview
             (files (run host pageProps initialState
                         [Drop [photoA; photoB]; ClickRemove "r0";
                          Drop [photoC]]))).
Proof.
  apply (previews_are_distinct host pageProps
           [Drop [photoA; photoB]; ClickRemove "r0"; Drop [photoC]]).
  vm_compute.
  repeat constructor; simpl; intuition discriminate.
Defined.

Lemma ids_are_distinct_when_random_is_witness :
  NoDup (map id
             (files (run host pageProps initialState
                         [Drop [photoA; photoB]; ClickRemove "r0";
                          Drop [photoC]]))).
Proof.
  apply (ids_are_distinct_when_random_is host pageProps
           [Drop [photoA; photoB]; ClickRemove "r0"; Drop [photoC]]).
  vm_compute.
  repeat constructor; simpl; intuition discriminate.
Defined.

(** ** Removal, continued *)

Lemma find_skips_absent (rid : string) (l1 l2 : list FileObject)
      (e : FileObject) :
  ~ In rid (map id l1) -> id e = rid ->
  find (fun f => String.eqb (id f) rid) (l1 ++ e :: l2) = Some e.
Proof.
  intros Habs He. induction l1 as [|a l1 IH]; simpl.
  - now rewrite He, String.eqb_refl.
  - simpl in Habs.
    destruct (String.eqb_spec (id a) rid) as [Heq | _]; [tauto|].
    apply IH. tauto.
Qed.

(** X9.  When the identifiers of the pending set are pairwise different,
    [removeFile] of the identifier of a pending entry removes that entry and
    no other, keeps the order of the rest, revokes the preview URL of that
    entry and of no other, and notifies the observer with the remaining
    entries. *)
Theorem removeFile_removes_exactly_one
        (P : Props) (st : State) (e : FileObject)
        (before after : list FileObject) :
  NoDup (map id (files st)) ->
  files st = before ++ e :: after ->
  let st' := removeFile P (id e) st in
  files st' = before ++ after
  /\ emitted st st'
     = RevokeObjectURL (preview e) :: notify P (before ++ after).
Proof.
  intros Hnd Hsplit st'.
  rewrite Hsplit, map_app in Hnd. simpl in Hnd.
  pose proof (NoDup_remove_2 _ _ _ Hnd) as Hnotin.
  assert (Hb : ~ In (id e) (map id before))
    by (intros H; apply Hnotin; apply in_or_app; now left).
  assert (Ha : ~ In (id e) (map id after))
    by (intros H; apply Hnotin; apply in_or_app; now right).
  destruct (absent_filter (id e) before Hb) as [Hfb _].
  destruct (absent_filter (id e) after Ha) as [Hfa _].
  assert (Hfiles : files st' = before ++ after).
  { unfold st', removeFile. simpl. rewrite Hsplit, filter_app. simpl.
    rewrite String.eqb_refl. simpl. now rewrite Hfb, Hfa. }
  split; [exact Hfiles|].
  apply emitted_app. unfold st', removeFile. simpl.
  rewrite Hsplit at 1.
  rewrite (find_skips_absent (id e) before after e Hb eq_refl).
  simpl. do 3 f_equal.
  rewrite Hsplit, filter_app. simpl.
  rewrite String.eqb_refl. simpl. now rewrite Hfb, Hfa.
Qed.

(** X10.  Removals commute: removing two identifiers in either order leaves
    the same pending set, and a removal never brings in an entry that was not
    pending. *)
Theorem removeFile_commutes (P : Props) (a b : string) (st : State) :
  files (removeFile P a (removeFile P b st))
  = files (removeFile P b (removeFile P a st))
  /\ incl (files (removeFile P a st)) (files st)
  /\ (List.length (files (removeFile P a st)) <= List.length (files st))%nat.
Proof.
  unfold removeFile. simpl. split; [|split].
  - induction (files st) as [|f l IH]; simpl; trivial.
    destruct (String.eqb (id f) a) eqn:Ha, (String.eqb (id f) b) eqn:Hb;
      simpl; rewrite ?Ha, ?Hb; simpl; now rewrite ?IH.
  - apply incl_filter.
  - apply filter_length_le.
Qed.

(** X11.  Removal and intake together keep the limit: along every sequence
    of drops, removals, uploads and camera events that contains no [toBlob]
    result, a pending set within [maxFiles] stays within [maxFiles]. *)
Theorem pending_set_bounded_along_events
        (B : Browser) (P : Props) (st0 : State) (trace : list Event) :
  forallb no_blob trace = true ->
  Z.of_nat (List.length (files st0)) <= maxFiles P ->
  Z.of_nat (List.length (files (run B P st0 trace))) <= maxFiles P.
Proof.
  intros Hnb H0. induction trace as [|e trace IH] using rev_ind; [exact H0|].
  rewrite forallb_app in Hnb. apply andb_prop in Hnb as [Hnb He].
  specialize (IH Hnb). rewrite run_snoc.
  set (st := run B P st0 trace) in *.
  destruct e as [fs | rid | | | s | r | | | c w h | blob iso];
    try discriminate He.
  - simpl. destruct fs as [|f fs]; [exact IH|].
    now apply accept_bounded.
  - simpl. pose proof (filter_length_le
                         (fun f => negb (String.eqb (id f) rid)) (files st)).
    lia.
  - simpl. unfold handleUpload.
    destruct (List.length (files st) =? 0)%nat; [exact IH|].
    destruct (onUpload P) as [upload|];
      [destruct (upload (files st))|]; exact IH.
  - simpl. unfold startCamera. destruct (negb (mediaDevices B)); exact IH.
  - simpl. unfold getUserMedia_resolved.
    destruct (requests st) as [|[|] rs]; exact IH.
  - simpl. unfold getUserMedia_rejected.
    destruct (requests st) as [|[|] rs]; [exact IH| |exact IH].
    destruct r as [nm msg|]; [|exact IH].
    repeat match goal with
           | |- context [if ?b then _ else _] => destruct b
           end; exact IH.
  - simpl. unfold timer_fired. destruct (timers st) as [|s ts]; [exact IH|].
    simpl. unfold videoRef_current. simpl. destruct (showCamera st); exact IH.
  - simpl. unfold stopCamera. destruct (stream st); exact IH.
  - simpl. unfold capturePhoto.
    destruct (videoRef_current st && canvasRef_current st); [|exact IH].
    destruct (negb c); [exact IH|].
    destruct ((w =? 0) || (h =? 0)); exact IH.
Qed.

Lemma pending_set_bounded_along_events_witness :
  Z.of_nat
    (List.length
       (files (run host twoSlots initialState
                   [Drop [photoA; photoB]; ClickRemove "r0"; ClickUpload;
                    Drop [photoC; photoA]; ClickTakePhoto])))
  <= maxFiles twoSlots.
Proof.
  apply (pending_set_bounded_along_events host twoSlots initialState).
  - reflexivity.
  - vm_compute. discriminate.
Defined.

(** ** Upload, continued *)

(** X12.  [handleUpload] never touches the pending set, whatever [onUpload]
    does: the entries stay pending after a successful upload too, and no
    preview URL is revoked.  On a non-empty pending set [onUpload], when
    supplied, is called once with exactly the pending entries, and
    [isUploading] is false again at the end. *)
Theorem handleUpload_keeps_pending_set (P : Props) (st : State) :
  let st' := handleUpload P st in
  files st' = files st
  /\ (forall url, ~ In (RevokeObjectURL url) (emitted st st'))
  /\ (files st <> [] ->
      isUploading st' = false
      /\ forall upload,
          onUpload P = Some upload ->
          exists rest,
            emitted st st' = OnUpload (files st) :: rest
            /\ forall l, ~ In (OnUpload l) rest).
Proof.
  intros st'. unfold st', handleUpload.
  destruct (files st) as [|f fs] eqn:Hfiles; simpl.
  - rewrite Hfiles. split; trivial. split; [|intros H; now elim H].
    intros url. unfold emitted. rewrite skipn_all. simpl. tauto.
  - destruct (onUpload P) as [upload|] eqn:Hup;
      [destruct (upload (f :: fs)) as [|err] eqn:Hout|]; simpl;
      rewrite Hfiles; (split; [reflexivity|]).
    + split.
      * intros url. erewrite emitted_app by (simpl; reflexivity).
        simpl. intuition discriminate.
      * intros _. split; trivial. intros upload' Hsome.
        exists []. split; [now apply emitted_app | simpl; tauto].
    + split.
      * intros url. erewrite emitted_app by (simpl; reflexivity).
        simpl. intuition discriminate.
      * intros _. split; trivial. intros upload' Hsome.
        eexists. split; [apply emitted_app; simpl; reflexivity|].
        simpl. intuition discriminate.
    + split.
      * intros url. erewrite emitted_app by (simpl; reflexivity).
        simpl. intuition discriminate.
      * intros _. split; trivial. intros upload' Hsome. discriminate.
Qed.

Lemma handleUpload_keeps_pending_set_witness :
  let st := accept host pageProps [photoA; photoB] initialState in
  let st' := handleUpload pageProps st in
  files st' = files st /\ isUploading st' = false.
Proof.
  destruct (handleUpload_keeps_pending_set pageProps
              (accept host pageProps [photoA; photoB] initialState))
    as (Hfiles & _ & Hnonempty).
  split; [exact Hfiles|].
  apply Hnonempty. vm_compute. discriminate.
Defined.

(** ** formatFileSize, continued *)

Lemma floor_log1024_unique (b i : Z) :
  0 <= i -> 1024 ^ i <= b < 1024 ^ (i + 1) -> Js.floor_log1024 b = i.
Proof.
  intros Hi [Hlo Hhi].
  assert (Hb : 1 <= b).
  { assert (0 < 1024 ^ i) by (apply Z.pow_pos_nonneg; lia). lia. }
  destruct (floor_log1024_spec b Hb) as (Hj & Hjlo & Hjhi).
  set (j := Js.floor_log1024 b) in *.
  destruct (Z.lt_trichotomy j i) as [Hlt | [Heq | Hgt]]; trivial; exfalso.
  - assert (1024 ^ (j + 1) <= 1024 ^ i) by (apply Z.pow_le_mono_r; lia). lia.
  - assert (1024 ^ (i + 1) <= 1024 ^ j) by (apply Z.pow_le_mono_r; lia). lia.
Qed.

(** X13.  A whole number [n] of units (1 <= n < 1024) of Bytes, KB, MB or GB
    prints as that number, without decimals, followed by the unit. *)
Theorem formatFileSize_whole_units (n i : Z) :
  1 <= n < 1024 ->
  0 <= i <= 3 ->
  formatFileSize (n * 1024 ^ i)
  = (Js.string_of_Z n ++ " " ++ nth (Z.to_nat i) sizes "")%string.
Proof.
  intros Hn Hi.
  assert (HK : 0 < 1024 ^ i) by (apply Z.pow_pos_nonneg; lia).
  assert (Hlog : Js.floor_log1024 (n * 1024 ^ i) = i).
  { apply floor_log1024_unique; [lia|].
    rewrite Z.pow_add_r by lia. change (1024 ^ 1) with 1024. nia. }
  unfold formatFileSize.
  destruct (n * 1024 ^ i =? 0) eqn:H0; [apply Z.eqb_eq in H0; nia|].
  destruct (n * 1024 ^ i <? 0) eqn:Hneg; [apply Z.ltb_lt in Hneg; nia|].
  cbv zeta. rewrite Hlog.
  assert (Hm : Js.toFixed2_hundredths (n * 1024 ^ i) (1024 ^ i) = n * 100).
  { unfold Js.toFixed2_hundredths. symmetry.
    apply Z.div_unique with (r := 1024 ^ i); [lia | ring]. }
  rewrite Hm. unfold Js.string_of_hundredths.
  rewrite Z.mod_mul by lia. simpl (0 =? 0).
  rewrite Z.div_mul by lia. do 2 f_equal.
  unfold sizes_at.
  destruct (i <? 0) eqn:Hi0; [apply Z.ltb_lt in Hi0; lia|].
  assert (Hcases : i = 0 \/ i = 1 \/ i = 2 \/ i = 3) by lia.
  destruct Hcases as [-> | [-> | [-> | ->]]]; reflexivity.
Qed.

Lemma formatFileSize_whole_units_witness :
  formatFileSize (512 * 1024 ^ 2)
  = (Js.string_of_Z 512 ++ " " ++ nth (Z.to_nat 2) sizes "")%string.
Proof. apply (formatFileSize_whole_units 512 2); lia. Defined.

(** X14.  For every byte count from 1 up to (not including) 1024^4 the unit
    index stays inside the table and the printed mantissa is the size divided
    by [1024 ^ i], [i] the unit index, rounded to the nearest hundredth
    (halves upwards); it lies between 1 and 1024 inclusive, the upper end
    being reached by rounding (1048575 bytes print as "1024 KB"). *)
Theorem formatFileSize_rounds_to_hundredths (b : Z) :
  1 <= b < 1024 ^ 4 ->
  let i := Js.floor_log1024 b in
  let K := 1024 ^ i in
  let m := Js.toFixed2_hundredths b K in
  formatFileSize b
  = (Js.string_of_hundredths m ++ " " ++ nth (Z.to_nat i) sizes "")%string
  /\ 0 <= i <= 3
  /\ 100 <= m <= 102400
  /\ - K <= 2 * (100 * b - m * K) < K.
Proof.
  intros [Hb Htop] i K m.
  destruct (floor_log1024_spec b Hb) as (Hi & Hlo & Hhi).
  fold i in Hi, Hlo, Hhi. fold K in Hlo.
  assert (HK : 0 < K) by (apply Z.pow_pos_nonneg; lia).
  assert (Hhi' : b < 1024 * K).
  { unfold K. rewrite Z.pow_add_r in Hhi by lia.
    change (1024 ^ 1) with 1024 in Hhi. lia. }
  assert (Hi3 : i <= 3).
  { destruct (Z.lt_ge_cases i 4) as [|Hge]; [lia|].
    assert (1024 ^ 4 <= K) by (apply Z.pow_le_mono_r; lia). lia. }
  unfold m. split; [|split; [|split]].
  - unfold formatFileSize.
    destruct (b =? 0) eqn:H0; [apply Z.eqb_eq in H0; lia|].
    destruct (b <? 0) eqn:Hneg; [apply Z.ltb_lt in Hneg; lia|].
    cbv zeta. fold i. fold K. do 2 f_equal. unfold sizes_at.
    destruct (i <? 0) eqn:Hi0; [apply Z.ltb_lt in Hi0; lia|].
    assert (Hcases : i = 0 \/ i = 1 \/ i = 2 \/ i = 3) by lia.
    destruct Hcases as [-> | [-> | [-> | ->]]]; reflexivity.
  - lia.
  - unfold Js.toFixed2_hundredths. split.
    + apply Z.div_le_lower_bound; lia.
    + apply Z.lt_succ_r. apply Z.div_lt_upper_bound; lia.
  - unfold Js.toFixed2_hundredths.
    pose proof (Z.div_mod (200 * b + K) (2 * K) ltac:(lia)) as Hdm.
    pose proof (Z.mod_pos_bound (200 * b + K) (2 * K) ltac:(lia)) as Hmod.
    set (q := (200 * b + K) / (2 * K)) in *.
    nia.
Qed.

Lemma formatFileSize_rounds_to_hundredths_witness :
  formatFileSize 1048575 = "1024 KB"
  /\ 0 <= Js.floor_log1024 1048575 <= 3
  /\ 100 <= Js.toFixed2_hundredths 1048575 1024 <= 102400
  /\ - 1024 <= 2 * (100 * 1048575 - Js.toFixed2_hundredths 1048575 1024 * 1024)
     < 1024.
Proof.
  apply (formatFileSize_rounds_to_hundredths 1048575).
  split; [lia | reflexivity].
Defined.

Lemma removeFile_removes_exactly_one_witness :
  let st := accept host pageProps [photoA; photoB; photoC] initialState in
  let a := mkFileObject photoA "r0" "blob:0" "a.jpg" 2048 "image/jpeg" in
  let b := mkFileObject photoB "r1" "blob:1" "b.png" 4096 "image/png" in
  let c := mkFileObject photoC "r2" "blob:2" "c.jpg" 1024 "image/jpeg" in
  files (removeFile pageProps "r1" st) = [a] ++ [c]
  /\ emitted st (removeFile pageProps "r1" st)
     = RevokeObjectURL "blob:1" :: notify pageProps ([a] ++ [c]).
Proof.
  apply (removeFile_removes_exactly_one pageProps
           (accept host pageProps [photoA; photoB; photoC] initialState)
           (mkFileObject photoB "r1" "blob:1" "b.png" 4096 "image/png")
           [mkFileObject photoA "r0" "blob:0" "a.jpg" 2048 "image/jpeg"]
           [mkFileObject photoC "r2" "blob:2" "c.jpg" 1024 "image/jpeg"]).
  - vm_compute. repeat constructor; simpl; intuition discriminate.
  - reflexivity.
Defined.

(** ** Camera session, continued *)



(** X16.  When [toBlob] delivers a null blob, nothing is added and the camera
    is not closed: the failure alert is the only effect, and the session is
    still live for another attempt. *)
Theorem null_blob_keeps_session
        (B : Browser) (P : Props) (st : State) (s : MediaStream)
        (w h : Z) (iso : string) :
  showCamera st = true -> stream st = Some s -> blobJobs st = [] ->
  w <> 0 -> h <> 0 ->
  let st' := run B P st [ClickCapture true w h; BlobReady None iso] in
  st' = emit [Alert "Failed to capture photo. Please try again."] st
  /\ files st' = files st /\ Live st' /\ stream st' = Some s
  /\ forall s0, ~ In (StopTracks s0) (emitted st st').
Proof.
  intros Hshow Hs Hjobs Hw Hh st'.
  assert (Hdims : (w =? 0) || (h =? 0) = false).
  { apply orb_false_iff. split; now apply Z.eqb_neq. }
  assert (Hrun : st' = emit [Alert "Failed to capture photo. Please try again."]
                            st).
  { unfold st', run. simpl. unfold capturePhoto, videoRef_current.
    rewrite Hshow. simpl. rewrite Hdims.
    unfold toBlob_callback. simpl. rewrite Hjobs. simpl.
    unfold emit. simpl. destruct st; simpl in *; subst; reflexivity. }
  split; [exact Hrun|]. rewrite Hrun. simpl. repeat split; trivial.
  - now exists s.
  - intros s0. erewrite emitted_app by reflexivity.
    simpl. intuition discriminate.
Qed.

Lemma null_blob_keeps_session_witness :
  let st' := run host pageProps liveState
                 [ClickCapture true 640 480; BlobReady None "t"] in
  st' = emit [Alert "Failed to capture photo. Please try again."] liveState
  /\ files st' = files liveState /\ Live st' /\ stream st' = Some 7%nat
  /\ forall s0, ~ In (StopTracks s0) (emitted liveState st').
Proof.
  apply (null_blob_keeps_session host pageProps liveState 7%nat 640 480 "t");
    try reflexivity; discriminate.
Defined.

(** X17.  The timestamp in the name of a captured file has the length of the
    ISO timestamp and contains neither ':' nor '.'; replacing again changes
    nothing. *)
Theorem replace_colon_dot_clean (s : string) :
  String.length (Js.replace_colon_dot s) = String.length s
  /\ ~ In ":"%char (list_ascii_of_string (Js.replace_colon_dot s))
  /\ ~ In "."%char (list_ascii_of_string (Js.replace_colon_dot s))
  /\ Js.replace_colon_dot (Js.replace_colon_dot s) = Js.replace_colon_dot s.
Proof.
  induction s as [|c s (IHl & IHc & IHd & IHi)]; simpl.
  - repeat split; tauto.
  - rewrite IHl, IHi.
    destruct (Ascii.eqb_spec c ":") as [->|Hc]; simpl.
    + repeat split; trivial; intros [Hbad | Hin]; try discriminate; tauto.
    + destruct (Ascii.eqb_spec c ".") as [->|Hd]; simpl.
      * repeat split; trivial; intros [Hbad | Hin]; try discriminate; tauto.
      * apply Ascii.eqb_neq in Hc. apply Ascii.eqb_neq in Hd.
        rewrite Hc, Hd. simpl.
        apply Ascii.eqb_neq in Hc. apply Ascii.eqb_neq in Hd.
        repeat split; trivial; intros [Hbad | Hin]; try tauto; congruence.
Qed.

Lemma replace_colon_dot_clean_example :
  File.name (capture_file 5000 "2024-01-01T10:00:00.000Z")
  = "camera-capture-2024-01-01T10-00-00-000Z.jpg".
Proof. reflexivity. Qed.

(** *** Acquisition *)

Lemma startCamera_from_idle (B : Browser) (st : State) :
  mediaDevices B = true -> Idle st ->
  startCamera B st
  = setRequests [Preferred] (setShowCamera true st).
Proof.
  intros Hdev (_ & _ & Hreq & _). unfold startCamera. rewrite Hdev. simpl.
  now rewrite Hreq.
Qed.

(** X18.  A failed acquisition that is not an over-constraint ends the
    session: from an idle component, after [startCamera] and the rejection
    the modal is hidden again, no stream is kept, nothing is in flight, and
    the user got exactly one alert (after the error was logged). *)
Theorem acquisition_failure_returns_to_idle
        (B : Browser) (P : Props) (st : State) (e : Rejection) :
  mediaDevices B = true ->
  Idle st ->
  overconstrained e = false ->
  let st' := run B P st [ClickTakePhoto; MediaRejected e] in
  Idle st' /\ srcObject st' = None /\ files st' = files st
  /\ exists msg,
      emitted st st' = [ConsoleError "Error accessing camera:"; Alert msg].
Proof.
  intros Hdev Hidle Hover st'.
  unfold st', run. simpl. rewrite (startCamera_from_idle B st Hdev Hidle).
  destruct Hidle as (Hshow & Hs & Hreq & Htim).
  unfold getUserMedia_rejected. simpl.
  destruct e as [nm msg|]; simpl in *.
  - rewrite Hover.
    repeat match goal with
           | |- context [if ?b then _ else _] => destruct b
           end;
      (split; [repeat split; trivial
              | split; [reflexivity
                       | split; [reflexivity
                                | eexists; apply emitted_app; simpl;
                                  rewrite <- app_assoc; reflexivity]]]).
  - split; [repeat split; trivial|]. split; [reflexivity|].
    split; [reflexivity|].
    eexists. apply emitted_app. simpl. rewrite <- app_assoc. reflexivity.
Qed.

Lemma acquisition_failure_returns_to_idle_witness :
  let st' := run host pageProps initialState
                 [ClickTakePhoto;
                  MediaRejected (ErrorNamed "NotAllowedError" "denied")] in
  Idle st' /\ srcObject st' = None /\ files st' = files initialState
  /\ exists msg,
      emitted initialState st'
      = [ConsoleError "Error accessing camera:"; Alert msg].
Proof.
  apply (acquisition_failure_returns_to_idle host pageProps initialState
           (ErrorNamed "NotAllowedError" "denied")).
  - reflexivity.
  - repeat split.
  - reflexivity.
Defined.

(** X19.  An over-constrained rejection is retried once, silently: the modal
    is hidden and one request with the relaxed constraints is in flight, no
    alert yet.  If that request is rejected too, whatever the reason, the
    component is idle again and shows the "any settings" alert; there is no
    second retry. *)
Theorem overconstrained_is_retried_once
        (B : Browser) (P : Props) (st : State) (message : string)
        (e2 : Rejection) :
  mediaDevices B = true ->
  Idle st ->
  let st1 := run B P st
                 [ClickTakePhoto;
                  MediaRejected (ErrorNamed "OverconstrainedError" message)] in
  let st2 := step B P st1 (MediaRejected e2) in
  requests st1 = [Fallback] /\ showCamera st1 = false /\ stream st1 = None
  /\ emitted st st1 = [ConsoleError "Error accessing camera:"]
  /\ Idle st2
  /\ emitted st1 st2 = [Alert "Unable to access camera with any settings."].
Proof.
  intros Hdev Hidle st1 st2.
  assert (Hst1 : st1 = setRequests [Fallback]
                         (setShowCamera false
                            (emit [ConsoleError "Error accessing camera:"]
                                  (setRequests []
                                     (setShowCamera true st))))).
  { unfold st1, run. simpl. rewrite (startCamera_from_idle B st Hdev Hidle).
    reflexivity. }
  destruct Hidle as (Hshow & Hs & Hreq & Htim).
  unfold st2. rewrite Hst1. simpl.
  repeat split; trivial.
  - now apply emitted_app.
  - now apply emitted_app.
Qed.

Lemma overconstrained_is_retried_once_witness :
  let st1 := run host pageProps initialState
                 [ClickTakePhoto;
                  MediaRejected (ErrorNamed "OverconstrainedError" "")] in
  let st2 := step host pageProps st1
                  (MediaRejected (ErrorNamed "OverconstrainedError" "")) in
  requests st1 = [Fallback] /\ showCamera st1 = false /\ stream st1 = None
  /\ emitted initialState st1 = [ConsoleError "Error accessing camera:"]
  /\ Idle st2
  /\ emitted st1 st2 = [Alert "Unable to access camera with any settings."].
Proof.
  apply (overconstrained_is_retried_once host pageProps initialState ""
           (ErrorNamed "OverconstrainedError" "")).
  - reflexivity.
  - repeat split.
Defined.

(** X20.  A successful acquisition goes live: from an idle component, once
    the stream has resolved and the 100 ms timer has run, the modal is shown,
    the stream is kept and is the [srcObject] of the video, and nothing is in
    flight; the same holds when the stream comes from the relaxed retry after
    an over-constraint. *)
Theorem acquisition_success_goes_live
        (B : Browser) (P : Props) (st : State) (s : MediaStream)
        (message : string) :
  mediaDevices B = true ->
  Idle st ->
  let direct := run B P st [ClickTakePhoto; MediaResolved s; TimerFired] in
  let retried :=
    run B P st [ClickTakePhoto;
                MediaRejected (ErrorNamed "OverconstrainedError" message);
                MediaResolved s; TimerFired] in
  (Live direct /\ stream direct = Some s /\ srcObject direct = Some s
   /\ requests direct = [] /\ timers direct = [] /\ log direct = log st)
  /\ (Live retried /\ stream retried = Some s /\ srcObject retried = Some s
      /\ requests retried = [] /\ timers retried = []).
Proof.
  intros Hdev Hidle direct retried.
  unfold direct, retried, run. simpl.
  rewrite (startCamera_from_idle B st Hdev Hidle).
  destruct Hidle as (Hshow & Hs & Hreq & Htim).
  unfold getUserMedia_resolved, getUserMedia_rejected, timer_fired. simpl.
  rewrite Htim. simpl.
  repeat split; trivial; now exists s.
Qed.

Lemma acquisition_success_goes_live_witness :
  let direct := run host pageProps initialState
                    [ClickTakePhoto; MediaResolved 3%nat; TimerFired] in
  let retried :=
    run host pageProps initialState
        [ClickTakePhoto;
         MediaRejected (ErrorNamed "OverconstrainedError" "");
         MediaResolved 3%nat; TimerFired] in
  (Live direct /\ stream direct = Some 3%nat /\ srcObject direct = Some 3%nat
   /\ requests direct = [] /\ timers direct = []
   /\ log direct = log initialState)
  /\ (Live retried /\ stream retried = Some 3%nat
      /\ srcObject retried = Some 3%nat
      /\ requests retried = [] /\ timers retried = []).
Proof.
  apply (acquisition_success_goes_live host pageProps initialState 3%nat "").
  - reflexivity.
  - repeat split.
Defined.

(** X21.  A click on Cancel runs the [stopCamera] of the current render: in
    any state it hides the modal, clears the stored stream and the video
    binding, leaves the pending set alone and stops the tracks of the stored
    stream once (nothing if there is none); a second click changes nothing and
    stops nothing.  A [stopCamera] of an earlier render is different: it stops
    the tracks of the stream it closed over whenever it runs, also when that
    stream was already stopped and is no longer stored. *)
Theorem cancel_stops_tracks_once (B : Browser) (P : Props) (st : State) :
  let st1 := step B P st ClickCancel in
  let st2 := step B P st1 ClickCancel in
  showCamera st1 = false /\ stream st1 = None /\ srcObject st1 = None
  /\ files st1 = files st
  /\ emitted st st1 = match stream st with
                      | Some s => [StopTracks s]
                      | None => []
                      end
  /\ st2 = st1
  /\ forall captured,
      emitted st1 (stopCamera captured st1)
      = match captured with
        | Some s => [StopTracks s]
        | None => []
        end.
Proof.
  intros st1 st2.
  assert (Hany : forall captured st0,
             emitted st0 (stopCamera captured st0)
             = match captured with
               | Some s => [StopTracks s]
               | None => []
               end).
  { intros [s|] st0; unfold stopCamera; simpl.
    - now apply emitted_app.
    - unfold emitted. now rewrite skipn_all. }
  assert (Hfirst : emitted st st1 = match stream st with
                                    | Some s => [StopTracks s]
                                    | None => []
                                    end) by apply Hany.
  assert (Hrest :
            showCamera st1 = false /\ stream st1 = None
            /\ srcObject st1 = None /\ files st1 = files st /\ st2 = st1).
  { unfold st2, st1. simpl. unfold stopCamera.
    destruct (stream st) as [s|] eqn:Hs; simpl.
    - repeat split.
    - rewrite Hs. repeat split. }
  destruct Hrest as (H1 & H2 & H3 & H4 & H5).
  repeat split; trivial.
Qed.

(** ** Captures that overlap *)

Lemma capturePhoto_enqueues (w h : Z) (st : State) :
  showCamera st = true -> w <> 0 -> h <> 0 ->
  capturePhoto true w h st
  = setBlobJobs
      (blobJobs st ++ [mkBlobJob (List.length (files st)) (stream st)]) st.
Proof.
  intros Hshow Hw Hh. unfold capturePhoto, videoRef_current.
  rewrite Hshow. simpl.
  replace ((w =? 0) || (h =? 0)) with false; trivial.
  symmetry. apply orb_false_iff. split; now apply Z.eqb_neq.
Qed.

Lemma handleFiles_call_one_valid
      (B : Browser) (P : Props) (n : nat) (f : File.t) (st : State) :
  isValidFileType P f = true -> File.size f <= maxFileSize P ->
  1 <= maxFiles P - Z.of_nat n ->
  handleFiles_call B P n [f] st
  = (mkState (files st) (showCamera st) (stream st) (isUploading st)
             (srcObject st) (requests st) (timers st) (blobJobs st)
             (randoms st + 1)%nat (urls st + 1)%nat (log st ++ []),
     fileObjects B (randoms st) (urls st) [f]).
Proof.
  intros Hty Hsize Hslot. unfold handleFiles_call.
  assert (Hval : validate P f = (true, [])).
  { unfold validate. rewrite Hty. simpl.
    replace (File.size f >? maxFileSize P) with false; trivial.
    symmetry. rewrite Z.gtb_ltb. apply Z.ltb_ge. lia. }
  assert (Hvalid : validFiles P [f] = [f])
    by (unfold validFiles; simpl; now rewrite Hval).
  assert (Hwarn : validation_warnings P [f] = [])
    by (unfold validation_warnings; simpl; now rewrite Hval).
  assert (Hslice : Js.slice0 [f] (maxFiles P - Z.of_nat n) = [f]).
  { rewrite slice0_nonneg by lia.
    destruct (Z.to_nat (maxFiles P - Z.of_nat n)) as [|k] eqn:Hk; [lia|].
    simpl. now rewrite firstn_nil. }
  cbv zeta. rewrite Hvalid, Hwarn, Hslice. reflexivity.
Qed.

Lemma toBlob_callback_one_valid
      (B : Browser) (P : Props) (st : State) (j : BlobJob)
      (js : list BlobJob) (bytes : Z) (iso : string) :
  blobJobs st = j :: js ->
  isValidFileType P (capture_file bytes iso) = true ->
  bytes <= maxFileSize P ->
  1 <= maxFiles P - Z.of_nat (job_files_length j) ->
  let st' := toBlob_callback B P (Some bytes) iso st in
  files st'
  = files st ++ fileObjects B (randoms st) (urls st) [capture_file bytes iso]
  /\ log st'
     = log st
       ++ match job_stream j with
          | Some s => [StopTracks s]
          | None => []
          end
       ++ notify P (files st')
  /\ blobJobs st' = js.
Proof.
  intros Hjobs Hty Hsize Hslot st'.
  assert (Hcb : st' = setFiles_updater P
                        (snd (handleFiles_call B P (job_files_length j)
                                [capture_file bytes iso] (setBlobJobs js st)))
                        (stopCamera (job_stream j)
                           (fst (handleFiles_call B P (job_files_length j)
                                   [capture_file bytes iso]
                                   (setBlobJobs js st))))).
  { unfold st', toBlob_callback. rewrite Hjobs. reflexivity. }
  rewrite (handleFiles_call_one_valid B P (job_files_length j)
             (capture_file bytes iso) (setBlobJobs js st) Hty Hsize Hslot)
    in Hcb.
  rewrite Hcb. unfold stopCamera. destruct (job_stream j) as [s|]; simpl;
    rewrite ?app_nil_r, <- ?app_assoc; repeat split.
Qed.

(** C1, evaluated on the code.  [handleFiles] counts the remaining slots
    against the [files.length] it closed over.  When the capture button is
    clicked twice before the first blob arrives, both [toBlob] callbacks hold
    the [handleFiles] of the same render: with one slot left, both photos
    are appended, the pending set ends one entry above [maxFiles], and no
    limit warning is printed (the tracks of the stream are stopped twice). *)
Theorem overlapping_captures_exceed_maxFiles
        (B : Browser) (P : Props) (st : State) (s : MediaStream)
        (w h b1 b2 : Z) (iso1 iso2 : string) :
  showCamera st = true -> stream st = Some s -> blobJobs st = [] ->
  w <> 0 -> h <> 0 ->
  isValidFileType P (capture_file b1 iso1) = true ->
  b1 <= maxFileSize P -> b2 <= maxFileSize P ->
  Z.of_nat (List.length (files st)) + 1 = maxFiles P ->
  let st' := run B P st [ClickCapture true w h; ClickCapture true w h;
                         BlobReady (Some b1) iso1; BlobReady (Some b2) iso2] in
  map file (files st')
  = map file (files st) ++ [capture_file b1 iso1; capture_file b2 iso2]
  /\ Z.of_nat (List.length (files st')) = maxFiles P + 1
  /\ emitted st st'
     = StopTracks s
         :: notify P (files st
                        ++ fileObjects B (randoms st) (urls st)
                                       [capture_file b1 iso1])
         ++ StopTracks s :: notify P (files st').
Proof.
  intros Hshow Hs Hjobs Hw Hh Hty Hb1 Hb2 Hfull st'.
  set (job := mkBlobJob (List.length (files st)) (Some s)).
  assert (Hclicks : run B P st [ClickCapture true w h; ClickCapture true w h]
                    = setBlobJobs [job; job] st).
  { change (run B P st [ClickCapture true w h; ClickCapture true w h])
      with (capturePhoto true w h (capturePhoto true w h st)).
    rewrite (capturePhoto_enqueues w h st Hshow Hw Hh).
    rewrite (capturePhoto_enqueues w h
               (setBlobJobs
                  (blobJobs st
                     ++ [mkBlobJob (List.length (files st)) (stream st)]) st)
               Hshow Hw Hh).
    simpl. rewrite Hjobs, Hs. reflexivity. }
  set (st2 := setBlobJobs [job; job] st) in *.
  set (st3 := toBlob_callback B P (Some b1) iso1 st2).
  assert (Hst' : st' = toBlob_callback B P (Some b2) iso2 st3).
  { unfold st'.
    change [ClickCapture true w h; ClickCapture true w h;
            BlobReady (Some b1) iso1; BlobReady (Some b2) iso2]
      with ([ClickCapture true w h; ClickCapture true w h]
              ++ [BlobReady (Some b1) iso1; BlobReady (Some b2) iso2]).
    unfold run. rewrite fold_left_app. fold (run B P st
      [ClickCapture true w h; ClickCapture true w h]).
    rewrite Hclicks. reflexivity. }
  assert (Hslot : 1 <= maxFiles P - Z.of_nat (job_files_length job))
    by (simpl; lia).
  destruct (toBlob_callback_one_valid B P st2 job [job] b1 iso1
              eq_refl Hty Hb1 Hslot) as (Hf3 & Hl3 & Hj3).
  fold st3 in Hf3, Hl3, Hj3.
  destruct (toBlob_callback_one_valid B P st3 job [] b2 iso2
              Hj3 Hty Hb2 Hslot) as (Hf4 & Hl4 & _).
  rewrite <- Hst' in Hf4, Hl4.
  unfold st2, setBlobJobs, job in Hf3, Hl3, Hl4.
  cbn [files randoms urls log job_stream] in Hf3, Hl3, Hl4.
  split; [|split].
  - rewrite Hf4, Hf3. simpl. rewrite !map_app. simpl.
    now rewrite <- app_assoc.
  - rewrite Hf4, Hf3, !length_app. simpl. lia.
  - apply emitted_app. rewrite Hl4, Hl3, Hf3. simpl.
    now rewrite <- !app_assoc.
Qed.

Lemma overlapping_captures_exceed_maxFiles_witness :
  let P := mkProps true None (5 * MiB) ["image/*"] 1 in
  let st' := run host P liveState
                 [ClickCapture true 640 480; ClickCapture true 640 480;
                  BlobReady (Some 5000) "2024-01-01T10:00:00.000Z";
                  BlobReady (Some 6000) "2024-01-01T10:00:00.200Z"] in
  map file (files st')
  = map file (files liveState)
    ++ [capture_file 5000 "2024-01-01T10:00:00.000Z";
        capture_file 6000 "2024-01-01T10:00:00.200Z"]
  /\ Z.of_nat (List.length (files st')) = maxFiles P + 1
  /\ emitted liveState st'
     = StopTracks 7%nat
         :: notify P (files liveState
                        ++ fileObjects host (randoms liveState)
                                       (urls liveState)
                                       [capture_file 5000
                                          "2024-01-01T10:00:00.000Z"])
         ++ StopTracks 7%nat :: notify P (files st').
Proof.
  apply (overlapping_captures_exceed_maxFiles
           host (mkProps true None (5 * MiB) ["image/*"] 1) liveState 7%nat
           640 480 5000 6000
           "2024-01-01T10:00:00.000Z" "2024-01-01T10:00:00.200Z");
    try reflexivity; try discriminate.
Defined.

(** ** Upload: the exception of the caller *)

(** C8.  [handleUpload] calls [onUpload] exactly when the pending set is not
    empty (the guard at its head; the Upload button is rendered only then).
    When that call throws, the exception is caught: it is logged, the failure
    alert is shown, [isUploading] is reset, and the pending set is exactly as
    it was before the upload was triggered. *)
Theorem thrown_upload_is_reported
        (P : Props) (st : State)
        (upload : list FileObject -> UploadOutcome) (e : string) :
  files st <> [] ->
  onUpload P = Some upload ->
  upload (files st) = Threw e ->
  let st' := handleUpload P st in
  files st' = files st
  /\ emitted st st' = [OnUpload (files st);
                       ConsoleError ("Upload error: " ++ e);
                       Alert upload_failed_msg]
  /\ In (Alert upload_failed_msg) (emitted st st')
  /\ isUploading st' = false.
Proof.
  intros Hne Hup Hthrow st'.
  destruct (throwing_upload_caught P st upload e Hup Hthrow)
    as (Hfiles & Hlog & Hbusy).
  fold st' in Hfiles, Hlog, Hbusy.
  destruct (files st) as [|f fs] eqn:Hpending; [now elim Hne|].
  split; [exact Hfiles|]. split; [exact Hlog|]. split; [|exact Hbusy].
  rewrite Hlog. simpl. tauto.
Qed.

Lemma thrown_upload_is_reported_witness :
  let st := accept host pageProps [photoA; photoB] initialState in
  let st' := handleUpload pageProps st in
  files st' = files st
  /\ emitted st st' = [OnUpload (files st);
                       ConsoleError "Upload error: network down";
                       Alert upload_failed_msg]
  /\ In (Alert upload_failed_msg) (emitted st st')
  /\ isUploading st' = false.
Proof.
  apply (thrown_upload_is_reported pageProps
           (accept host pageProps [photoA; photoB] initialState)
           (fun _ => Threw "network down") "network down").
  - vm_compute. discriminate.
  - reflexivity.
  - reflexivity.
Defined.

(** ** The two moments of handleFiles *)

(** When the updater runs right after the call, as in a drop or a file
    selection, the call and the updater together are [handleFiles]. *)
Lemma handleFiles_in_two_moments
      (B : Browser) (P : Props) (n : nat) (batch : list File.t) (st : State) :
  handleFiles B P n batch st
  = setFiles_updater P (snd (handleFiles_call B P n batch st))
                     (fst (handleFiles_call B P n batch st)).
Proof.
  unfold handleFiles, setFiles_updater, handleFiles_call. simpl.
  now rewrite <- !app_assoc.
Qed.
